(** * PHI detection engine of the healthcare-compliance extension

    A shallow embedding of the PHI detection tool (the module imported as
    [tools/phi-detect]): the pattern catalog
    [PHI_PATTERNS], the false-positive filter [isFalsePositive], the scan
    loop and confidence arithmetic of [detectPhi], the overlap resolution of
    [deduplicateFindings] and the tool entry point [handlePhiDetect],
    together with the part of the ECMAScript regular-expression semantics
    the catalog relies on. *)

From Stdlib Require Import String Ascii ZArith NArith Lia Bool Arith.
From Stdlib Require Import List Sorted Permutation.
Import ListNotations.

Set Implicit Arguments.
Local Open Scope string_scope.
Local Open Scope list_scope.

(** ** Text

    A JavaScript string is a sequence of UTF-16 code units. *)

Definition CodeUnit := N.
Definition JsString := list CodeUnit.

Definition ch (a : ascii) : CodeUnit := N_of_ascii a.
Definition str (s : string) : JsString := map N_of_ascii (list_ascii_of_string s).

(** [String.prototype.slice] for indices that are already non-negative
    integers: the units at positions [from <= i < to], cut at the end of
    the string, empty when [to <= from]. *)
Definition slice (s : JsString) (from to : nat) : JsString :=
  firstn (to - from) (skipn from s).

(** ** Regular expressions

    The fragment of ECMAScript patterns used by the catalog: literal
    characters, character classes built from ranges, single characters,
    [\d] and [\s], the assertion [\b], sequencing, alternation, capturing
    and non-capturing groups, and greedy quantifiers.  The matcher follows
    the continuation-passing formulation of the language specification: a
    matcher takes the current end index and a continuation, and the first
    success in priority order is the result. *)

Module RegExp.

Inductive ClassItem : Type :=
| Range (lo hi : CodeUnit)
| Single (c : CodeUnit)
| Digit
| Space.

Inductive Regex : Type :=
| Empty
| Char (c : CodeUnit)
| Class (items : list ClassItem)
| WordBoundary
| Seq (r1 r2 : Regex)
| Alt (r1 r2 : Regex)
| Group (r : Regex)
| Repeat (r : Regex) (min : nat) (max : option nat).

Definition between (lo hi c : CodeUnit) : bool := ((lo <=? c) && (c <=? hi))%N.
Arguments between (lo hi c)%_N_scope.

Definition isDigit (c : CodeUnit) : bool := between 48 57 c.
Definition isUpper (c : CodeUnit) : bool := between 65 90 c.
Definition isLower (c : CodeUnit) : bool := between 97 122 c.

(** [\w]: the ASCII letters, the digits and the underscore. *)
Definition isWordChar (c : CodeUnit) : bool :=
  (isUpper c || isLower c || isDigit c || (c =? 95))%N.

(** [\s]: WhiteSpace and LineTerminator code points. *)
Definition isSpace (c : CodeUnit) : bool :=
  (between 9 13 c || (c =? 32) || (c =? 160) || (c =? 5760)
   || between 8192 8202 c || (c =? 8232) || (c =? 8233) || (c =? 8239)
   || (c =? 8287) || (c =? 12288) || (c =? 65279))%N.

Definition itemMem (c : CodeUnit) (it : ClassItem) : bool :=
  match it with
  | Range lo hi => between lo hi c
  | Single a => (a =? c)%N
  | Digit => isDigit c
  | Space => isSpace c
  end.

Definition classMem (items : list ClassItem) (c : CodeUnit) : bool :=
  existsb (itemMem c) items.

Definition toUpperUnit (c : CodeUnit) : CodeUnit := if isLower c then (c - 32)%N else c.
Definition toLowerUnit (c : CodeUnit) : CodeUnit := if isUpper c then (c + 32)%N else c.

Definition Continuation := nat -> option nat.
Definition Matcher := nat -> Continuation -> option nat.

(** RepeatMatcher of the language specification for a greedy quantifier
    [{min,max}] ([max = None] for an unbounded one).  An iteration that
    matches the empty string once [min] is exhausted is rejected, so
    every call either lowers [min] or moves the end index forward; [fuel]
    bounds the depth of that descent, and any amount above
    [min + length input] gives the same result
    ([repeatMatcher_fuel] below). *)
Fixpoint repeatMatcher (fuel : nat) (m : Matcher) (min : nat) (max : option nat)
         (x : nat) (c : Continuation) : option nat :=
  match fuel with
  | O => None
  | S fuel' =>
      match max with
      | Some O => c x
      | _ =>
          let d := fun y =>
            if ((min =? 0) && (y =? x))%nat then None
            else repeatMatcher fuel' m (pred min) (option_map pred max) y c in
          match min with
          | S _ => m x d
          | O => match m x d with
                 | Some z => Some z
                 | None => c x
                 end
          end
      end
  end.

Section Matching.

(** The [i] flag and the string being matched. *)
Variable ignoreCase : bool.
Variable input : JsString.

(** Canonicalize of the language specification for a pattern without the
    [u] flag.  A code unit of 128 or more never canonicalizes to an ASCII
    one, and the catalog's patterns mention ASCII characters and
    white space only, so upper-casing the ASCII letters decides every
    comparison the matcher makes. *)
Definition canonicalize (c : CodeUnit) : CodeUnit :=
  if ignoreCase then toUpperUnit c else c.

Definition charMatches (a c : CodeUnit) : bool :=
  (canonicalize a =? canonicalize c)%N.

(** A class matches [c] when one of its members canonicalizes like [c]. *)
Definition classMatches (items : list ClassItem) (c : CodeUnit) : bool :=
  classMem items c
  || (ignoreCase && (classMem items (toUpperUnit c) || classMem items (toLowerUnit c))).

(** IsWordChar at index [e]; the unit before index 0 and the one at the
    end of the input are not word characters. *)
Definition wordCharAt (e : nat) : bool :=
  match nth_error input e with
  | Some c => isWordChar c
  | None => false
  end.

Definition atWordBoundary (x : nat) : bool :=
  let a := match x with O => false | S p => wordCharAt p end in
  xorb a (wordCharAt x).

Fixpoint matcher (r : Regex) (x : nat) (c : Continuation) {struct r} : option nat :=
  match r with
  | Empty => c x
  | Char a =>
      match nth_error input x with
      | Some u => if charMatches a u then c (S x) else None
      | None => None
      end
  | Class items =>
      match nth_error input x with
      | Some u => if classMatches items u then c (S x) else None
      | None => None
      end
  | WordBoundary => if atWordBoundary x then c x else None
  | Seq r1 r2 => matcher r1 x (fun y => matcher r2 y c)
  | Alt r1 r2 =>
      match matcher r1 x c with
      | Some z => Some z
      | None => matcher r2 x c
      end
  | Group r1 => matcher r1 x c
  | Repeat r1 min max =>
      repeatMatcher (S (min + length input)) (matcher r1) min max x c
  end.

(** One attempt at index [i]: the end index of the match, if any. *)
Definition matchAt (r : Regex) (i : nat) : option nat := matcher r i Some.

(** The search loop of RegExpBuiltinExec: try [i], [i+1], ... for [n]
    start positions. *)
Fixpoint searchFrom (r : Regex) (n i : nat) : option (nat * nat) :=
  match n with
  | O => None
  | S n' =>
      match matchAt r i with
      | Some e => Some (i, e)
      | None => searchFrom r n' (S i)
      end
  end.

(** [exec] of a global pattern whose [lastIndex] is [lastIndex]: the start
    and end index of the first match at or after [lastIndex], start
    positions running up to and including the length of the input. *)
Definition exec (r : Regex) (lastIndex : nat) : option (nat * nat) :=
  searchFrom r (S (length input) - lastIndex) lastIndex.

(** What a matcher may do with its continuation: call it at an index that
    lies at least [k] units further on and within the input. *)
Definition advances (k : nat) (m : Matcher) : Prop :=
  forall x c z, x <= length input -> m x c = Some z ->
    exists y, x + k <= y /\ y <= length input /\ c y = Some z.

(** A matcher that consults its continuation only at indices from the
    current one up to the end of the input. *)
Definition consultsAhead (m : Matcher) : Prop :=
  forall x c c', x <= length input ->
    (forall y, x <= y -> y <= length input -> c y = c' y) ->
    m x c = m x c'.

End Matching.

(** [test] after [lastIndex] was reset to 0. *)
Definition test (ignoreCase : bool) (r : Regex) (s : JsString) : bool :=
  match exec ignoreCase s r 0 with
  | Some _ => true
  | None => false
  end.

(** A lower bound on the length of every match of a pattern. *)
Definition repeatBound (min : nat) (max : option nat) : nat :=
  match max with
  | Some k => Nat.min min k
  | None => min
  end.

Fixpoint minLen (r : Regex) : nat :=
  match r with
  | Empty | WordBoundary => 0
  | Char _ | Class _ => 1
  | Seq r1 r2 => minLen r1 + minLen r2
  | Alt r1 r2 => Nat.min (minLen r1) (minLen r2)
  | Group r1 => minLen r1
  | Repeat r1 min max => repeatBound min max * minLen r1
  end.

(** *** Pattern syntax helpers *)

Definition seqs (rs : list Regex) : Regex := fold_right Seq Empty rs.

Fixpoint alts (rs : list Regex) : Regex :=
  match rs with
  | [] => Empty
  | [r] => r
  | r :: rest => Alt r (alts rest)
  end.

Definition lit (s : string) : Regex := seqs (map Char (str s)).
Definition words (ws : list string) : Regex := alts (map lit ws).

Definition opt (r : Regex) : Regex := Repeat r 0 (Some 1).
Definition star (r : Regex) : Regex := Repeat r 0 None.
Definition plus (r : Regex) : Regex := Repeat r 1 None.
Definition times (n : nat) (r : Regex) : Regex := Repeat r n (Some n).
Definition fromTo (n k : nat) (r : Regex) : Regex := Repeat r n (Some k).
Definition atLeast (n : nat) (r : Regex) : Regex := Repeat r n None.

Definition oneOf (s : string) : list ClassItem := map Single (str s).
Definition rng (a b : ascii) : ClassItem := Range (ch a) (ch b).

End RegExp.

Import RegExp.

(** ** Pattern catalog *)

Inductive ContextType : Type := code | filename | data | comment | general.

Inductive Category : Type := direct | quasi | indirect.

Definition ContextType_eqb (a b : ContextType) : bool :=
  match a, b with
  | code, code | filename, filename | data, data
  | comment, comment | general, general => true
  | _, _ => false
  end.

Record PhiPattern : Type := {
  id : string;
  name : string;
  pattern : Regex;
  ignoreCase : bool;
  category : Category;
  hipaaIdentifier : string;
  baseConfidence : Z;
  contextModifiers : option (list (ContextType * Z))
}.

(** Property lookup [modifiers[context]] on an object literal keyed by
    context names; [None] stands for [undefined]. *)
Fixpoint lookupModifier (modifiers : list (ContextType * Z)) (context : ContextType)
  : option Z :=
  match modifiers with
  | [] => None
  | (k, v) :: rest =>
      if ContextType_eqb k context then Some v else lookupModifier rest context
  end.

(** Fragments that recur in the catalog: [d] is [\d], [colonSpace] is
    [[:\s]], [underSpace] is [[_\s]], [quote] is the class of the double
    and the single quote, [dashDotSpace] is [[-.\s]], [slashDash] is
    [[\/\-]], [capitalized] is [[A-Z][a-z]+], [fullName] is the capturing
    group of two capitalized words separated by a space, and [date] is
    [\d{1,2}[\/\-]\d{1,2}[\/\-]\d{2,4}].  Each pattern below lists the
    terms of its source expression in order. *)
Module Syntax.

Definition dquote : CodeUnit := 34%N.

Definition d : Regex := Class [Digit].
Definition upper : ClassItem := rng "A" "Z".
Definition lower : ClassItem := rng "a" "z".
Definition digits : ClassItem := rng "0" "9".
Definition alpha : Regex := Class [upper; lower].
Definition alnum : Regex := Class [upper; lower; digits].
Definition upperNum : Regex := Class [upper; digits].
Definition colonSpace : Regex := Class (oneOf ":" ++ [Space]).
Definition underSpace : Regex := Class (oneOf "_" ++ [Space]).
Definition quote : Regex := Class [Single dquote; Single (ch "'")].
Definition dashDotSpace : Regex := Class (oneOf "-." ++ [Space]).
Definition slashDash : Regex := Class (oneOf "/-").
Definition capitalized : Regex := Seq (Class [upper]) (plus (Class [lower])).
Definition fullName : Regex :=
  Group (seqs [capitalized; lit " "; capitalized]).
Definition date : Regex :=
  seqs [fromTo 1 2 d; slashDash; fromTo 1 2 d; slashDash; fromTo 2 4 d].

End Syntax.

Import Syntax.

Definition ssn : PhiPattern := {|
  id := "ssn";
  name := "Social Security Number";
  pattern := seqs [WordBoundary; times 3 d; opt (lit "-"); times 2 d;
                   opt (lit "-"); times 4 d; WordBoundary];
  ignoreCase := false;
  category := direct;
  hipaaIdentifier := "Social Security number";
  baseConfidence := 95;
  contextModifiers := Some [(code, -30); (filename, 5)]%Z
|}.

Definition mrn : PhiPattern := {|
  id := "mrn";
  name := "Medical Record Number";
  pattern := seqs [WordBoundary;
                   words ["MRN"; "mrn"; "Medical Record"; "medical_record"];
                   star (Class (oneOf ":" ++ [Space] ++ oneOf "#"));
                   fromTo 5 12 d; WordBoundary];
  ignoreCase := true;
  category := direct;
  hipaaIdentifier := "Medical record numbers";
  baseConfidence := 90;
  contextModifiers := None
|}.

Definition medicare_id : PhiPattern := {|
  id := "medicare_id";
  name := "Medicare Beneficiary Identifier";
  pattern := seqs [WordBoundary; Class [rng "1" "9"]; alpha; alnum; d; alpha;
                   alnum; d; times 2 alpha; times 2 d; WordBoundary];
  ignoreCase := false;
  category := direct;
  hipaaIdentifier := "Health plan beneficiary numbers";
  baseConfidence := 92;
  contextModifiers := None
|}.

Definition health_plan_id : PhiPattern := {|
  id := "health_plan_id";
  name := "Health Plan ID";
  pattern := seqs [WordBoundary;
                   alts [seqs [lit "member"; opt (lit "_"); lit "id"];
                         seqs [lit "subscriber"; opt (lit "_"); lit "id"];
                         seqs [lit "policy"; opt (lit "_");
                               words ["number"; "num"; "no"]];
                         seqs [lit "group"; opt (lit "_");
                               words ["number"; "num"; "no"]]];
                   star colonSpace; fromTo 6 20 upperNum; WordBoundary];
  ignoreCase := true;
  category := direct;
  hipaaIdentifier := "Health plan beneficiary numbers";
  baseConfidence := 75;
  contextModifiers := None
|}.

Definition patient_name_explicit : PhiPattern := {|
  id := "patient_name_explicit";
  name := "Explicit Patient Name";
  pattern := seqs [WordBoundary;
                   alts [seqs [lit "patient"; opt underSpace; lit "name"];
                         seqs [lit "resident"; opt underSpace; lit "name"];
                         seqs [lit "client"; opt underSpace; lit "name"]];
                   star colonSpace; opt quote; fullName; opt quote];
  ignoreCase := true;
  category := direct;
  hipaaIdentifier := "Names";
  baseConfidence := 88;
  contextModifiers := None
|}.

Definition person_name : PhiPattern := {|
  id := "person_name";
  name := "Person Name (Generic)";
  pattern := seqs [WordBoundary; lit "name"; star colonSpace; quote; fullName;
                   quote];
  ignoreCase := false;
  category := quasi;
  hipaaIdentifier := "Names";
  baseConfidence := 60;
  contextModifiers := Some [(data, 20); (code, -20)]%Z
|}.

Definition phone : PhiPattern := {|
  id := "phone";
  name := "Phone Number";
  pattern := seqs [WordBoundary;
                   opt (seqs [lit "+"; lit "1"; opt dashDotSpace]);
                   opt (lit "("); times 3 d; opt (lit ")"); opt dashDotSpace;
                   times 3 d; opt dashDotSpace; times 4 d; WordBoundary];
  ignoreCase := false;
  category := direct;
  hipaaIdentifier := "Telephone numbers";
  baseConfidence := 65;
  contextModifiers := Some [(code, -30); (data, 20)]%Z
|}.

Definition email : PhiPattern := {|
  id := "email";
  name := "Email Address";
  pattern := seqs [WordBoundary;
                   plus (Class ([upper; lower; digits] ++ oneOf "._%+-"));
                   lit "@";
                   plus (Class ([upper; lower; digits] ++ oneOf ".-"));
                   lit "."; atLeast 2 alpha; WordBoundary];
  ignoreCase := false;
  category := direct;
  hipaaIdentifier := "Email addresses";
  baseConfidence := 60;
  contextModifiers := Some [(code, -40); (data, 25)]%Z
|}.

Definition dob_explicit : PhiPattern := {|
  id := "dob_explicit";
  name := "Date of Birth (Explicit)";
  pattern := seqs [WordBoundary;
                   alts [lit "dob";
                         seqs [lit "date"; opt underSpace; lit "of";
                               opt underSpace; lit "birth"];
                         seqs [lit "birth"; opt underSpace; lit "date"]];
                   star colonSpace; opt quote; date; opt quote];
  ignoreCase := true;
  category := direct;
  hipaaIdentifier := "Dates (except year)";
  baseConfidence := 92;
  contextModifiers := None
|}.

Definition date_service : PhiPattern := {|
  id := "date_service";
  name := "Date of Service";
  pattern := seqs [WordBoundary;
                   alts [lit "dos";
                         seqs [lit "date"; opt underSpace; lit "of";
                               opt underSpace; lit "service"];
                         seqs [lit "service"; opt underSpace; lit "date"];
                         seqs [lit "admission"; opt underSpace; lit "date"];
                         seqs [lit "discharge"; opt underSpace; lit "date"]];
                   star colonSpace; opt quote; date; opt quote];
  ignoreCase := true;
  category := quasi;
  hipaaIdentifier := "Dates (except year)";
  baseConfidence := 70;
  contextModifiers := None
|}.

Definition street_address : PhiPattern := {|
  id := "street_address";
  name := "Street Address";
  pattern := seqs [WordBoundary; fromTo 1 5 d; plus (Class [Space]);
                   fromTo 1 3 (seqs [capitalized; plus (Class [Space])]);
                   words ["Street"; "St"; "Avenue"; "Ave"; "Road"; "Rd";
                          "Boulevard"; "Blvd"; "Drive"; "Dr"; "Lane"; "Ln";
                          "Court"; "Ct"; "Way"; "Circle"; "Cir"];
                   WordBoundary];
  ignoreCase := true;
  category := direct;
  hipaaIdentifier := "Geographic data";
  baseConfidence := 75;
  contextModifiers := Some [(code, -35)]%Z
|}.

Definition zip_code : PhiPattern := {|
  id := "zip_code";
  name := "ZIP Code";
  pattern := seqs [WordBoundary; words ["zip"; "postal"]; opt underSpace;
                   opt (lit "code"); star colonSpace; times 5 d;
                   opt (seqs [lit "-"; times 4 d]); WordBoundary];
  ignoreCase := true;
  category := direct;
  hipaaIdentifier := "Geographic data (ZIP codes)";
  baseConfidence := 55;
  contextModifiers := Some [(data, 20)]%Z
|}.

Definition account_number : PhiPattern := {|
  id := "account_number";
  name := "Account Number";
  pattern := seqs [WordBoundary;
                   alts [seqs [lit "account"; opt underSpace;
                               words ["number"; "num"; "no"; "#"]];
                         seqs [lit "acct"; opt underSpace;
                               words ["number"; "num"; "no"; "#"]]];
                   star colonSpace; fromTo 6 20 upperNum; WordBoundary];
  ignoreCase := true;
  category := direct;
  hipaaIdentifier := "Account numbers";
  baseConfidence := 70;
  contextModifiers := None
|}.

Definition device_id : PhiPattern := {|
  id := "device_id";
  name := "Device Identifier";
  pattern := seqs [WordBoundary;
                   alts [seqs [lit "device"; opt underSpace;
                               words ["id"; "identifier"; "serial"]];
                         seqs [lit "serial"; opt underSpace;
                               words ["number"; "num"; "no"]]];
                   star colonSpace;
                   fromTo 8 30 (Class ([upper; digits] ++ oneOf "-"));
                   WordBoundary];
  ignoreCase := true;
  category := direct;
  hipaaIdentifier := "Device identifiers and serial numbers";
  baseConfidence := 65;
  contextModifiers := None
|}.

Definition fingerprint : PhiPattern := {|
  id := "fingerprint";
  name := "Fingerprint Data";
  pattern := seqs [WordBoundary; words ["fingerprint"; "biometric"];
                   opt underSpace; words ["data"; "hash"; "id"];
                   star colonSpace;
                   atLeast 20 (Class ([upper; lower; digits] ++ oneOf "+/="))];
  ignoreCase := true;
  category := direct;
  hipaaIdentifier := "Biometric identifiers";
  baseConfidence := 85;
  contextModifiers := None
|}.

Definition ip_address : PhiPattern := {|
  id := "ip_address";
  name := "IP Address";
  pattern := seqs [WordBoundary;
                   alts [seqs [lit "patient"; opt underSpace; lit "ip"];
                         seqs [lit "client"; opt underSpace; lit "ip"];
                         seqs [lit "user"; opt underSpace; lit "ip"]];
                   star colonSpace;
                   times 3 (seqs [fromTo 1 3 d; lit "."]); fromTo 1 3 d;
                   WordBoundary];
  ignoreCase := true;
  category := direct;
  hipaaIdentifier := "IP addresses";
  baseConfidence := 80;
  contextModifiers := None
|}.

Definition license_plate : PhiPattern := {|
  id := "license_plate";
  name := "License Plate";
  pattern := seqs [WordBoundary;
                   alts [seqs [lit "license"; opt underSpace; lit "plate"];
                         seqs [lit "vehicle"; opt underSpace;
                               words ["plate"; "tag"]]];
                   star colonSpace; fromTo 5 8 upperNum; WordBoundary];
  ignoreCase := true;
  category := direct;
  hipaaIdentifier := "Vehicle identifiers";
  baseConfidence := 75;
  contextModifiers := None
|}.

Definition photo_reference : PhiPattern := {|
  id := "photo_reference";
  name := "Photo Reference";
  pattern := seqs [WordBoundary;
                   alts [seqs [lit "patient"; opt underSpace; lit "photo"];
                         seqs [lit "resident"; opt underSpace; lit "photo"];
                         seqs [lit "client"; opt underSpace; lit "photo"];
                         seqs [lit "face"; opt underSpace; lit "image"]];
                   star underSpace; Class (oneOf ":=")];
  ignoreCase := true;
  category := direct;
  hipaaIdentifier := "Full-face photographs";
  baseConfidence := 82;
  contextModifiers := None
|}.

Definition diagnosis_code : PhiPattern := {|
  id := "diagnosis_code";
  name := "Diagnosis with Context";
  pattern := seqs [WordBoundary; words ["diagnosis"; "dx"]; star colonSpace;
                   opt quote; Class [upper]; times 2 d;
                   opt (seqs [lit "."; fromTo 1 4 d]); opt quote];
  ignoreCase := true;
  category := quasi;
  hipaaIdentifier := "Medical information";
  baseConfidence := 40;
  contextModifiers := Some [(data, 30)]%Z
|}.

Definition PHI_PATTERNS : list PhiPattern :=
  [ssn; mrn; medicare_id; health_plan_id; patient_name_explicit; person_name;
   phone; email; dob_explicit; date_service; street_address; zip_code;
   account_number; device_id; fingerprint; ip_address; license_plate;
   photo_reference; diagnosis_code].

(** Known false-positive patterns, each with its [i] flag. *)
Definition FALSE_POSITIVE_PATTERNS : list (Regex * bool) :=
  [(lit "test@example.com", true);
   (lit "user@domain.com", true);
   (lit "john.doe@", true);
   (lit "jane.doe@", true);
   (lit "123-45-6789", false);
   (lit "000-00-0000", false);
   (lit "111-11-1111", false);
   (lit "555-555-5555", false);
   (seqs [WordBoundary; words ["localhost"; "127.0.0.1"; "0.0.0.0"];
          WordBoundary], false);
   (words ["placeholder"; "example"; "sample"; "test"; "dummy"; "mock"; "fake"],
    true)].

(** The marker-word pattern applied to the lower-cased surroundings. *)
Definition markerWords : Regex :=
  seqs [WordBoundary;
        words ["test"; "example"; "sample"; "dummy"; "mock"; "fake";
               "placeholder"];
        WordBoundary].

(** ** Findings

    [PhiFinding] of the source; its field [match] is [matched] here, and
    its fields [category] and [hipaaIdentifier], which repeat those of the
    pattern, carry the prefix [finding]. *)

Record PhiFinding : Type := {
  type : string;
  matched : JsString;
  confidence : Z;
  findingCategory : Category;
  findingHipaaIdentifier : string;
  explanation : string;
  startIndex : nat;
  endIndex : nat
}.

Record PhiDetectionResult : Type := {
  findings : list PhiFinding;
  scannedLength : nat;
  context : ContextType;
  strictMode : bool
}.

Definition categoryName (c : Category) : string :=
  match c with
  | direct => "direct"
  | quasi => "quasi"
  | indirect => "indirect"
  end.

Definition getExplanation (p : PhiPattern) (confidence : Z) : string :=
  let confidenceLevel :=
    if (80 <=? confidence)%Z then "High"
    else if (60 <=? confidence)%Z then "Medium" else "Low" in
  String.append confidenceLevel
    (String.append " confidence match for "
      (String.append (hipaaIdentifier p)
        (String.append ". This is a "
          (String.append (categoryName (category p))
            " identifier under HIPAA Safe Harbor de-identification.")))).

(** ** Scanning *)

Section Detection.

(** [String.prototype.toLowerCase] of the host, which maps a whole string
    through the Unicode case tables.  The engine is stated for any such
    function; the concrete scenarios below use ASCII text. *)
Variable toLowerCase : JsString -> JsString.

Definition isFalsePositive (matchedText content : JsString) (index : nat) : bool :=
  if existsb (fun fp => RegExp.test (snd fp) (fst fp) matchedText)
             FALSE_POSITIVE_PATTERNS
  then true
  else
    let contextStart := Nat.max 0 (index - 50) in
    let contextEnd :=
      Nat.min (length content) (index + length matchedText + 50) in
    let surroundingContext :=
      toLowerCase (slice content contextStart contextEnd) in
    if RegExp.test false markerWords surroundingContext then true else false.

(** The running value of [confidence] after the context modifier has
    been applied. *)
Definition contextConfidence (p : PhiPattern) (context : ContextType) : Z :=
  let confidence := baseConfidence p in
  match contextModifiers p with
  | Some modifiers =>
      match lookupModifier modifiers context with
      | Some modifier => (confidence + modifier)%Z
      | None => confidence
      end
  | None => confidence
  end.

(** The running value of [confidence] after the strict-mode adjustment,
    before the floor check and the clamp. *)
Definition adjustedConfidence (p : PhiPattern) (context : ContextType)
           (strictMode : bool) : Z :=
  let confidence := contextConfidence p context in
  if strictMode && (confidence <? 70)%Z then (confidence + 15)%Z
  else confidence.

(** The body of the [while] loop of [detectPhi] for one match of pattern
    [p] starting at [index]; [None] is a [continue] that pushes nothing. *)
Definition processMatch (p : PhiPattern) (content : JsString)
           (context : ContextType) (strictMode : bool)
           (index : nat) (matchedText : JsString) : option PhiFinding :=
  if isFalsePositive matchedText content index then None
  else
    let confidence := adjustedConfidence p context strictMode in
    if negb strictMode && (confidence <? 50)%Z then None
    else
      let confidence := Z.max 0 (Z.min 100 confidence) in
      Some {| type := name p;
              matched := matchedText;
              confidence := confidence;
              findingCategory := category p;
              findingHipaaIdentifier := hipaaIdentifier p;
              explanation := getExplanation p confidence;
              startIndex := index;
              endIndex := index + length matchedText |}.

Definition push (findings : list PhiFinding) (f : option PhiFinding)
  : list PhiFinding :=
  match f with
  | Some x => findings ++ [x]
  | None => findings
  end.

(** [while ((match = pattern.exec(content)) !== null)]: one iteration per
    unit of [fuel].  A successful [exec] leaves [lastIndex] at the end of
    the match, so the loop does not end when a match is empty; the result
    is then [None]. *)
Fixpoint scanPattern (fuel : nat) (p : PhiPattern) (content : JsString)
         (context : ContextType) (strictMode : bool) (lastIndex : nat)
         (findings : list PhiFinding) : option (list PhiFinding) :=
  match fuel with
  | O => None
  | S fuel' =>
      match RegExp.exec (ignoreCase p) content (pattern p) lastIndex with
      | None => Some findings
      | Some (index, e) =>
          let matchedText := slice content index e in
          scanPattern fuel' p content context strictMode e
            (push findings
               (processMatch p content context strictMode index matchedText))
      end
  end.

(** [for (const pattern of PHI_PATTERNS)], each pattern scanned from
    [lastIndex = 0].  Matches that are never empty end at most
    [length content] iterations before the failing [exec]. *)
Fixpoint scanPatterns (ps : list PhiPattern) (content : JsString)
         (context : ContextType) (strictMode : bool)
         (findings : list PhiFinding) : option (list PhiFinding) :=
  match ps with
  | [] => Some findings
  | p :: rest =>
      match scanPattern (S (S (length content))) p content context strictMode
                        0 findings with
      | Some findings' => scanPatterns rest content context strictMode findings'
      | None => None
      end
  end.

(** [findings.sort((a, b) => b.confidence - a.confidence)]: the stable
    sort by descending confidence. *)
Fixpoint insertFinding (f : PhiFinding) (sorted : list PhiFinding)
  : list PhiFinding :=
  match sorted with
  | [] => [f]
  | g :: rest =>
      if (confidence f <? confidence g)%Z then g :: insertFinding f rest
      else f :: g :: rest
  end.

Definition sortFindings (fs : list PhiFinding) : list PhiFinding :=
  fold_right insertFinding [] fs.

Definition overlaps (finding f : PhiFinding) : bool :=
  negb ((endIndex finding <=? startIndex f)%nat
        || (endIndex f <=? startIndex finding)%nat).

Fixpoint deduplicateInto (result todo : list PhiFinding) : list PhiFinding :=
  match todo with
  | [] => result
  | finding :: rest =>
      match find (overlaps finding) result with
      | Some _ => deduplicateInto result rest
      | None => deduplicateInto (result ++ [finding]) rest
      end
  end.

Definition deduplicateFindings (fs : list PhiFinding) : list PhiFinding :=
  deduplicateInto [] fs.

(** The raw candidates, before sorting. *)
Definition candidates (content : JsString) (context : ContextType)
           (strictMode : bool) : option (list PhiFinding) :=
  scanPatterns PHI_PATTERNS content context strictMode [].

Definition detectPhi (content : JsString) (context : ContextType)
           (strictMode : bool) : option PhiDetectionResult :=
  match candidates content context strictMode with
  | Some raw =>
      let deduplicated := deduplicateFindings (sortFindings raw) in
      Some {| findings := deduplicated;
              scannedLength := length content;
              context := context;
              strictMode := strictMode |}
  | None => None
  end.

(** A finding pushed for pattern [p]: the loop body accepted a match of
    [p] that spans the non-empty range [index, e) of the content. *)
Definition emittedBy (content : JsString) (context : ContextType)
           (strictMode : bool) (p : PhiPattern) (f : PhiFinding) : Prop :=
  exists index e,
    index < e /\ e <= length content
    /\ processMatch p content context strictMode index
                    (slice content index e) = Some f.

Definition emitted (content : JsString) (context : ContextType)
           (strictMode : bool) (f : PhiFinding) : Prop :=
  exists p, In p PHI_PATTERNS /\ emittedBy content context strictMode p f.

(** *** The tool entry point *)

Record PhiDetectArgs : Type := {
  argContent : option JsString;
  argContext : option ContextType;
  argStrictMode : option bool
}.

Inductive ToolReply : Type :=
| ErrorText (text : string)
| NoPhiDetected
| PhiResults (result : PhiDetectionResult).

(** [configStrictMode] is [config.get('phi.strictMode')].  A missing or
    empty [content] is falsy and is answered before any scan; a scan
    that yields findings is answered with their formatted report, kept
    here as the result it is rendered from. *)
Definition handlePhiDetect (args : PhiDetectArgs) (configStrictMode : option bool)
  : option ToolReply :=
  let context :=
    match argContext args with Some c => c | None => general end in
  let strictMode :=
    match argStrictMode args with
    | Some b => b
    | None => match configStrictMode with Some b => b | None => false end
    end in
  match argContent args with
  | None | Some [] =>
      Some (ErrorText "Error: Content is required for PHI detection.")
  | Some content =>
      match detectPhi content context strictMode with
      | Some result =>
          match findings result with
          | [] => Some NoPhiDetected
          | _ => Some (PhiResults result)
          end
      | None => None
      end
  end.

End Detection.

(** Lower-casing of the ASCII letters, which is what [toLowerCase] does
    to a string of ASCII units. *)
Definition asciiToLowerCase (s : JsString) : JsString := map toLowerUnit s.

(** A string literal in double quotes, as it appears in scanned source
    text. *)
Definition quoted (s : string) : JsString := [dquote] ++ str s ++ [dquote].

(** ** The confidence scorer as the specification words it

    Steps 1 to 5 of the scorer: start from the base confidence, add the
    context delta when one is defined, add 15 in strict mode below 70,
    discard below 50 outside strict mode, clamp to [0, 100].  [None] is a
    discarded candidate. *)
Definition clamp (confidence : Z) : Z := Z.max 0 (Z.min 100 confidence).

Definition specConfidence (baseConfidence : Z)
           (contextDeltas : option (list (ContextType * Z)))
           (context : ContextType) (strictMode : bool) : option Z :=
  let step1 := baseConfidence in
  let step2 :=
    match contextDeltas with
    | Some deltas =>
        match lookupModifier deltas context with
        | Some delta => (step1 + delta)%Z
        | None => step1
        end
    | None => step1
    end in
  let step3 :=
    if strictMode then (if (step2 <? 70)%Z then (step2 + 15)%Z else step2)
    else step2 in
  if strictMode then Some (clamp step3)
  else if (step3 <? 50)%Z then None
  else Some (clamp step3).

(** Two spans are disjoint when one ends before the other begins. *)
Definition disjoint (f1 f2 : PhiFinding) : Prop :=
  endIndex f1 <= startIndex f2 \/ endIndex f2 <= startIndex f1.

(** Descending order of confidence. *)
Definition byConfidence (f1 f2 : PhiFinding) : Prop :=
  (confidence f2 <= confidence f1)%Z.

(** A [toLowerCase] that treats strings of ASCII units as the language
    requires. *)
Definition isAscii (c : CodeUnit) : Prop := (c < 128)%N.

Definition asciiConformant (toLowerCase : JsString -> JsString) : Prop :=
  forall s, Forall isAscii s -> toLowerCase s = asciiToLowerCase s.

(** ** Statements examined below *)

(** The candidate [f] covers the [len] units that start at [pos]. *)
Definition covers (f : PhiFinding) (pos len : nat) : Prop :=
  startIndex f <= pos /\ pos + len <= endIndex f.

Definition mutuallyOverlapping (set : list PhiFinding) : Prop :=
  forall a b, In a set -> In b set -> overlaps a b = true.

(** "Among any set of mutually overlapping raw candidates, the one with
    the highest confidence survives", for one scan. *)
Definition bestOfEveryOverlappingSetSurvives
           (toLowerCase : JsString -> JsString) (content : JsString)
           (context : ContextType) (strictMode : bool) : Prop :=
  forall raw res set top,
    candidates toLowerCase content context strictMode = Some raw ->
    detectPhi toLowerCase content context strictMode = Some res ->
    incl set raw -> mutuallyOverlapping set ->
    In top set -> (forall a, In a set -> (confidence a <= confidence top)%Z) ->
    In top (findings res).

(** Scanned texts of the scenarios. *)
Definition contextScenario : JsString := str "ssn = " ++ quoted "123-45-6789".
Definition unlistedSsnScenario : JsString := str "ssn = " ++ quoted "234-56-7890".
Definition recordScenario : JsString :=
  str "Patient MRN: 123456789, DOB: 01/15/1985, phone: (555) 123-4567".
Definition chainScenario : JsString := str "patient name: John MRN: 123456789".

Definition hasType (p : PhiPattern) (f : PhiFinding) : Prop := type f = name p.

(** "The data-context SSN confidence is strictly greater than the
    code-context SSN confidence" for the scans of [content]: the data
    scan reports an SSN finding, and it exceeds every SSN finding of the
    code scan. *)
Definition dataExceedsCode (toLowerCase : JsString -> JsString)
           (content : JsString) (strictMode : bool) : Prop :=
  exists resData fd,
    detectPhi toLowerCase content data strictMode = Some resData
    /\ In fd (findings resData) /\ hasType ssn fd
    /\ forall resCode fc,
         detectPhi toLowerCase content code strictMode = Some resCode ->
         In fc (findings resCode) -> hasType ssn fc ->
         (confidence fc < confidence fd)%Z.

(** "At least three findings (MRN, DOB, phone), each with confidence at
    least 50, spans non-overlapping, sorted descending by confidence". *)
Definition recordScenarioAsStated (toLowerCase : JsString -> JsString) : Prop :=
  exists res,
    detectPhi toLowerCase recordScenario general false = Some res
    /\ 3 <= length (findings res)
    /\ (exists f, In f (findings res) /\ hasType mrn f)
    /\ (exists f, In f (findings res) /\ hasType dob_explicit f)
    /\ (exists f, In f (findings res) /\ hasType phone f)
    /\ Forall (fun f => (50 <= confidence f)%Z) (findings res)
    /\ ForallOrdPairs disjoint (findings res)
    /\ StronglySorted byConfidence (findings res).

(** The raw candidates of [chainScenario] for the record number and for
    the patient name. *)
Definition chainRecordNumber : PhiFinding := {|
  type := "Medical Record Number";
  matched := str "MRN: 123456789";
  confidence := 90;
  findingCategory := direct;
  findingHipaaIdentifier := "Medical record numbers";
  explanation := getExplanation mrn 90;
  startIndex := 19;
  endIndex := 33
|}.

Definition chainPatientName : PhiFinding := {|
  type := "Explicit Patient Name";
  matched := str "patient name: John MRN";
  confidence := 88;
  findingCategory := direct;
  findingHipaaIdentifier := "Names";
  explanation := getExplanation patient_name_explicit 88;
  startIndex := 0;
  endIndex := 22
|}.

(** What a report shows of a finding: type, confidence and range. *)
Definition summary (f : PhiFinding) : string * Z * nat * nat :=
  (type f, confidence f, startIndex f, endIndex f).

Definition noResult : PhiDetectionResult :=
  {| findings := []; scannedLength := 0; context := general; strictMode := false |}.


(** ** Reporting

    What the tool and the editor commands do with a scan result. *)

(** [maskSensitiveValue]: [value.slice(-2)] is the last two units, and
    ['*'.repeat(n)] is [n] asterisks. *)
Definition asterisk : CodeUnit := 42%N.

Definition sliceFromEnd (s : JsString) (n : nat) : JsString :=
  skipn (length s - n) s.

Definition maskSensitiveValue (value : JsString) : JsString :=
  if (length value <=? 4)%nat then str "****"
  else slice value 0 2 ++ repeat asterisk (length value - 4)
       ++ sliceFromEnd value 2.

(** The three lists [formatPhiResults] renders one after the other, under
    the headings for high, medium and low confidence. *)
Module FormatPhiResults.

Definition highConfidence (result : PhiDetectionResult) : list PhiFinding :=
  filter (fun f => (80 <=? confidence f)%Z) (findings result).

Definition mediumConfidence (result : PhiDetectionResult) : list PhiFinding :=
  filter (fun f => (60 <=? confidence f)%Z && (confidence f <? 80)%Z)
         (findings result).

Definition lowConfidence (result : PhiDetectionResult) : list PhiFinding :=
  filter (fun f => (confidence f <? 60)%Z) (findings result).

End FormatPhiResults.

(** The three lists [showPhiFindingsSummary] counts; a line of the
    warning message is added for each one that is not empty. *)
Module ShowPhiFindingsSummary.

Definition highConfidence (result : PhiDetectionResult) : list PhiFinding :=
  filter (fun f => (80 <=? confidence f)%Z) (findings result).

Definition mediumConfidence (result : PhiDetectionResult) : list PhiFinding :=
  filter (fun f => (50 <=? confidence f)%Z && (confidence f <? 80)%Z)
         (findings result).

Definition lowConfidence (result : PhiDetectionResult) : list PhiFinding :=
  filter (fun f => (confidence f <? 50)%Z) (findings result).

End ShowPhiFindingsSummary.







Section Diagnostics.

Variable Position : Type.
Variable positionAt : nat -> Position.



End Diagnostics.

(** ** Further notions used in the properties *)

(** What identifies a candidate apart from its score: the pattern's
    display name, the matched text and the range. *)
Definition skeleton (f : PhiFinding) : string * JsString * nat * nat :=
  (type f, matched f, startIndex f, endIndex f).

(** Equality of two strings up to the case of ASCII letters. *)
Definition sameIgnoringCase (a b : JsString) : Prop :=
  Forall2 (fun x y => toUpperUnit x = toUpperUnit y) a b.

(** The text [m] contains the word [w] at offset [j], up to letter case
    when [anyCase] is set. *)
Definition containsAt (anyCase : bool) (m : JsString) (j : nat) (w : JsString)
  : Prop :=
  if anyCase then sameIgnoringCase w (slice m j (j + length w))
  else slice m j (j + length w) = w.

(** A finding is a genuine match of pattern [p] in [content]: the
    pattern's expression matches from [startIndex] to [endIndex], the
    filter did not reject it, and the descriptive fields are the
    pattern's. *)
Definition genuineMatch (toLowerCase : JsString -> JsString)
           (content : JsString) (p : PhiPattern) (f : PhiFinding) : Prop :=
  matchAt (ignoreCase p) content (pattern p) (startIndex f) = Some (endIndex f)
  /\ matched f = slice content (startIndex f) (endIndex f)
  /\ isFalsePositive toLowerCase (matched f) content (startIndex f) = false
  /\ type f = name p
  /\ findingCategory f = category p
  /\ findingHipaaIdentifier f = hipaaIdentifier p
  /\ explanation f = getExplanation p (confidence f).

(** Position [k] lies in the range of [f]; position [k] lies in the range
    of one of [fs]. *)
Definition inside (k : nat) (f : PhiFinding) : bool :=
  (startIndex f <=? k)%nat && (k <? endIndex f)%nat.

Definition covered (fs : list PhiFinding) (k : nat) : bool :=
  existsb (inside k) fs.

(** The placeholder values and marker words the false-positive list
    spells out, each with the flag that says whether letter case is
    ignored. *)
Definition suppressedLiterals : list (string * bool) :=
  [("test@example.com", true); ("user@domain.com", true);
   ("john.doe@", true); ("jane.doe@", true);
   ("123-45-6789", false); ("000-00-0000", false);
   ("111-11-1111", false); ("555-555-5555", false);
   ("placeholder", true); ("example", true); ("sample", true);
   ("test", true); ("dummy", true); ("mock", true); ("fake", true)].

(** The number of units a list of findings spans. *)
Definition spannedLength (fs : list PhiFinding) : nat :=
  fold_right (fun f acc => (endIndex f - startIndex f) + acc) 0 fs.

(** * Properties *)

(** ** Facts about the matcher *)

Module RegExpFacts.

Section Bounds.

Variable ignoreCase : bool.
Variable input : JsString.

Lemma repeatMatcher_advances (k : nat) (m : Matcher) :
  advances input k m ->
  forall fuel min max, advances input (repeatBound min max * k)
                                (fun x c => repeatMatcher fuel m min max x c).
Proof.
  intros Hm fuel.
  induction fuel as [|fuel IH]; intros min max x c z Hx; simpl.
  - discriminate.
  - destruct max as [[|k']|].
    + intros Hc. exists x. unfold repeatBound. rewrite Nat.min_0_r. simpl.
      repeat split; try lia. exact Hc.
    + destruct min as [|n]; simpl.
      * destruct (m x _) as [z'|] eqn:E.
        -- intros Hz. inversion Hz; subst z'.
           apply Hm in E; [|exact Hx]. destruct E as (y & Hy1 & Hy2 & Hd).
           destruct (y =? x)%nat; [discriminate|].
           apply IH in Hd; [|exact Hy2]. destruct Hd as (y' & H1 & H2 & H3).
           exists y'. repeat split; try lia. exact H3.
        -- intros Hc. exists x. repeat split; try lia. exact Hc.
      * intros E. apply Hm in E; [|exact Hx].
        destruct E as (y & Hy1 & Hy2 & Hd).
        apply IH in Hd; [|exact Hy2]. destruct Hd as (y' & H1 & H2 & H3).
        exists y'. unfold repeatBound in *. simpl in *.
        repeat split; try lia. exact H3.
    + destruct min as [|n]; simpl.
      * destruct (m x _) as [z'|] eqn:E.
        -- intros Hz. inversion Hz; subst z'.
           apply Hm in E; [|exact Hx]. destruct E as (y & Hy1 & Hy2 & Hd).
           destruct (y =? x)%nat; [discriminate|].
           apply IH in Hd; [|exact Hy2]. destruct Hd as (y' & H1 & H2 & H3).
           exists y'. repeat split; try lia. exact H3.
        -- intros Hc. exists x. repeat split; try lia. exact Hc.
      * intros E. apply Hm in E; [|exact Hx].
        destruct E as (y & Hy1 & Hy2 & Hd).
        apply IH in Hd; [|exact Hy2]. destruct Hd as (y' & H1 & H2 & H3).
        exists y'. simpl in *. repeat split; try lia. exact H3.
Qed.

Lemma unit_in_range (x : nat) (u : CodeUnit) :
  nth_error input x = Some u -> S x <= length input.
Proof.
  intros H. apply Nat.le_succ_l. apply nth_error_Some. congruence.
Qed.

Lemma matcher_advances (r : Regex) :
  advances input (minLen r) (matcher ignoreCase input r).
Proof.
  induction r as [|a|items| |r1 IH1 r2 IH2|r1 IH1 r2 IH2|r1 IH1|r1 IH1 min max];
    intros x c z Hx.
  - simpl. intros H. exists x. repeat split; try lia. exact H.
  - simpl. destruct (nth_error input x) as [u|] eqn:E; [|discriminate].
    destruct (charMatches ignoreCase a u); [|discriminate].
    intros H. exists (S x). pose proof (unit_in_range x E).
    repeat split; try lia. exact H.
  - simpl. destruct (nth_error input x) as [u|] eqn:E; [|discriminate].
    destruct (classMatches ignoreCase items u); [|discriminate].
    intros H. exists (S x). pose proof (unit_in_range x E).
    repeat split; try lia. exact H.
  - simpl. destruct (atWordBoundary input x); [|discriminate].
    intros H. exists x. repeat split; try lia. exact H.
  - simpl. intros H. apply IH1 in H; [|exact Hx].
    destruct H as (y & H1 & H2 & H3).
    apply IH2 in H3; [|exact H2]. destruct H3 as (y' & H4 & H5 & H6).
    exists y'. repeat split; try lia. exact H6.
  - simpl. destruct (matcher ignoreCase input r1 x c) as [z'|] eqn:E.
    + intros Hz. inversion Hz; subst z'. apply IH1 in E; [|exact Hx].
      destruct E as (y & H1 & H2 & H3). exists y. repeat split; try lia. exact H3.
    + intros H. apply IH2 in H; [|exact Hx].
      destruct H as (y & H1 & H2 & H3). exists y. repeat split; try lia. exact H3.
  - simpl. intros H. apply IH1 in H; [|exact Hx]. exact H.
  - intros H.
    exact (@repeatMatcher_advances (minLen r1) _ IH1 (S (min + length input))
             min max x c z Hx H).
Qed.

(** A match found by [exec] starts at or after [lastIndex], ends within
    the input, and spans at least [minLen] units. *)
Lemma matchAt_bounds (r : Regex) (i e : nat) :
  i <= length input -> matchAt ignoreCase input r i = Some e ->
  i + minLen r <= e /\ e <= length input.
Proof.
  intros Hi H. unfold matchAt in H.
  apply matcher_advances in H; [|exact Hi].
  destruct H as (y & H1 & H2 & H3). inversion H3; subst. lia.
Qed.

Lemma searchFrom_bounds (r : Regex) (n i j e : nat) :
  i + n <= S (length input) ->
  searchFrom ignoreCase input r n i = Some (j, e) ->
  i <= j /\ j + minLen r <= e /\ e <= length input.
Proof.
  revert i. induction n as [|n IH]; intros i Hn; simpl; [discriminate|].
  destruct (matchAt ignoreCase input r i) as [e'|] eqn:E.
  - intros H. inversion H; subst j e'.
    apply matchAt_bounds in E; [lia|lia].
  - intros H. apply IH in H; lia.
Qed.

Lemma exec_bounds (r : Regex) (lastIndex j e : nat) :
  exec ignoreCase input r lastIndex = Some (j, e) ->
  lastIndex <= j /\ j + minLen r <= e /\ e <= length input.
Proof.
  unfold exec. intros H.
  destruct (Nat.le_gt_cases lastIndex (S (length input))) as [Hl|Hl].
  - apply searchFrom_bounds in H; [exact H|lia].
  - replace (S (length input) - lastIndex) with 0 in H by lia. discriminate.
Qed.

(** [searchFrom] succeeds as soon as one of its start positions does. *)
Lemma searchFrom_finds (r : Regex) (n i j : nat) :
  i <= j < i + n -> matchAt ignoreCase input r j <> None ->
  searchFrom ignoreCase input r n i <> None.
Proof.
  revert i. induction n as [|n IH]; intros i Hj Hm; simpl; [lia|].
  destruct (matchAt ignoreCase input r i) eqn:E; [discriminate|].
  apply IH; [|exact Hm].
  destruct (Nat.eq_dec i j) as [->|]; [congruence|lia].
Qed.

End Bounds.

Section Fuel.

Variable ignoreCase : bool.
Variable input : JsString.

Lemma repeatMatcher_consultsAhead (m : Matcher) :
  consultsAhead input m ->
  forall fuel min max,
    consultsAhead input (fun x c => repeatMatcher fuel m min max x c).
Proof.
  intros Hm fuel.
  induction fuel as [|fuel IH]; intros min max x c c' Hx Hc; simpl;
    [reflexivity|].
  assert (Hd : forall y, x <= y -> y <= length input ->
            (if ((min =? 0) && (y =? x))%nat then None
             else repeatMatcher fuel m (pred min) (option_map pred max) y c)
            = (if ((min =? 0) && (y =? x))%nat then None
               else repeatMatcher fuel m (pred min) (option_map pred max) y c')).
  { intros y Hy1 Hy2. destruct ((min =? 0) && (y =? x))%nat; [reflexivity|].
    apply IH; [exact Hy2|]. intros y' H1 H2. apply Hc; lia. }
  pose proof (Hm x _ _ Hx Hd) as Hbody.
  assert (Hcx : c x = c' x) by (apply Hc; lia).
  destruct max as [[|k]|]; [exact Hcx| |];
    (destruct min as [|n]; [rewrite Hbody, Hcx; reflexivity|exact Hbody]).
Qed.

Lemma matcher_consultsAhead (r : Regex) :
  consultsAhead input (matcher ignoreCase input r).
Proof.
  induction r as [|a|items| |r1 IH1 r2 IH2|r1 IH1 r2 IH2|r1 IH1|r1 IH1 min max];
    intros x c c' Hx Hc.
  - simpl. apply Hc; lia.
  - simpl. destruct (nth_error input x) as [u|] eqn:E; [|reflexivity].
    pose proof (unit_in_range input x E).
    destruct (charMatches ignoreCase a u); [apply Hc; lia|reflexivity].
  - simpl. destruct (nth_error input x) as [u|] eqn:E; [|reflexivity].
    pose proof (unit_in_range input x E).
    destruct (classMatches ignoreCase items u); [apply Hc; lia|reflexivity].
  - simpl. destruct (atWordBoundary input x); [apply Hc; lia|reflexivity].
  - simpl. apply IH1; [exact Hx|]. intros y H1 H2.
    apply IH2; [exact H2|]. intros y' H3 H4. apply Hc; lia.
  - simpl. rewrite (IH1 x c c' Hx Hc), (IH2 x c c' Hx Hc). reflexivity.
  - simpl. apply IH1; assumption.
  - exact (@repeatMatcher_consultsAhead _ IH1 (S (min + length input)) min max
             x c c' Hx Hc).
Qed.

(** The fuel of [repeatMatcher] never runs out: every amount above
    [min + (length input - x)] yields the same result. *)
Lemma repeatMatcher_fuel (m : Matcher) :
  consultsAhead input m ->
  forall fuel1 fuel2 min max x c,
    x <= length input ->
    min + (length input - x) < fuel1 ->
    min + (length input - x) < fuel2 ->
    repeatMatcher fuel1 m min max x c = repeatMatcher fuel2 m min max x c.
Proof.
  intros Hm fuel1.
  induction fuel1 as [|fuel1 IH]; intros fuel2 min max x c Hx H1 H2; [lia|].
  destruct fuel2 as [|fuel2]; [lia|]. simpl.
  assert (Hd : forall y, x <= y -> y <= length input ->
            (if ((min =? 0) && (y =? x))%nat then None
             else repeatMatcher fuel1 m (pred min) (option_map pred max) y c)
            = (if ((min =? 0) && (y =? x))%nat then None
               else repeatMatcher fuel2 m (pred min) (option_map pred max) y c)).
  { intros y Hy1 Hy2.
    destruct ((min =? 0) && (y =? x))%nat eqn:E; [reflexivity|].
    apply IH; [exact Hy2| |];
      (destruct min as [|n]; simpl in *;
       [apply Nat.eqb_neq in E; lia|lia]). }
  pose proof (Hm x _ _ Hx Hd) as Hbody.
  destruct max as [[|k]|]; [reflexivity| |];
    (destruct min as [|n]; [rewrite Hbody; reflexivity|exact Hbody]).
Qed.

Lemma matcher_Repeat_fuel (r : Regex) (min : nat) (max : option nat)
      (fuel x : nat) (c : Continuation) :
  x <= length input -> min + length input < fuel ->
  matcher ignoreCase input (Repeat r min max) x c
  = repeatMatcher fuel (matcher ignoreCase input r) min max x c.
Proof.
  intros Hx Hf. cbn [matcher].
  apply repeatMatcher_fuel; [apply matcher_consultsAhead|exact Hx|lia|lia].
Qed.

End Fuel.

Section Literals.

Variable input : JsString.

Lemma skipn_cons (x : nat) (a : CodeUnit) (t : JsString) :
  skipn x input = a :: t ->
  nth_error input x = Some a /\ skipn (S x) input = t.
Proof.
  revert x. induction input as [|b l IH]; intros x H.
  - destruct x; discriminate.
  - destruct x as [|x].
    + simpl in H. inversion H; subst. split; reflexivity.
    + simpl in H. apply IH in H. exact H.
Qed.

(** A case-sensitive sequence of literal characters matches where the
    input spells it out, and hands over to the continuation behind it. *)
Lemma matcher_literal (cs : JsString) (x : nat) (c : Continuation) :
  firstn (length cs) (skipn x input) = cs ->
  matcher false input (seqs (map Char cs)) x c = c (x + length cs).
Proof.
  revert x. induction cs as [|a cs IH]; intros x H; simpl.
  - f_equal. lia.
  - simpl in H. destruct (skipn x input) as [|b t] eqn:E; [discriminate|].
    injection H as Hb Ht. subst b.
    apply skipn_cons in E. destruct E as [E1 E2].
    rewrite E1. unfold charMatches, canonicalize. rewrite N.eqb_refl.
    fold (seqs (map Char cs)). rewrite IH.
    + f_equal. lia.
    + rewrite E2. exact Ht.
Qed.

Lemma test_literal (s : string) (j : nat) :
  j <= length input ->
  firstn (length (str s)) (skipn j input) = str s ->
  test false (lit s) input = true.
Proof.
  intros Hj H. unfold test, exec.
  destruct (searchFrom false input (lit s) (S (length input) - 0) 0) eqn:E;
    [reflexivity|].
  exfalso. revert E. apply searchFrom_finds with (j := j); [lia|].
  unfold matchAt, lit. rewrite matcher_literal; [discriminate|exact H].
Qed.

End Literals.

End RegExpFacts.

Import RegExpFacts.

(** ** Facts about sorting and overlap resolution *)

Section ListFacts.

Variable A : Type.
Variable R : A -> A -> Prop.

Lemma StronglySorted_app_inv (l1 l2 : list A) :
  StronglySorted R (l1 ++ l2) ->
  forall a b, In a l1 -> In b l2 -> R a b.
Proof.
  induction l1 as [|x l1 IH]; intros H a b Ha Hb; [contradiction|].
  simpl in H. apply StronglySorted_inv in H. destruct H as [Hs Hf].
  destruct Ha as [->|Ha].
  - rewrite Forall_forall in Hf. apply Hf. apply in_or_app. right. exact Hb.
  - exact (IH Hs a b Ha Hb).
Qed.

Lemma StronglySorted_remove (l1 l2 : list A) (x : A) :
  StronglySorted R (l1 ++ x :: l2) -> StronglySorted R (l1 ++ l2).
Proof.
  induction l1 as [|y l1 IH]; simpl; intros H.
  - apply StronglySorted_inv in H. tauto.
  - apply StronglySorted_inv in H. destruct H as [Hs Hf].
    constructor; [exact (IH Hs)|].
    rewrite Forall_forall in *. intros z Hz. apply Hf.
    apply in_app_or in Hz. apply in_or_app. simpl. tauto.
Qed.

Lemma ForallOrdPairs_snoc (l : list A) (x : A) :
  ForallOrdPairs R l -> Forall (fun y => R y x) l ->
  ForallOrdPairs R (l ++ [x]).
Proof.
  induction 1 as [|a l Ha Hl IH]; intros Hx; simpl.
  - constructor; constructor.
  - inversion Hx; subst. constructor.
    + apply Forall_app. split; [exact Ha|]. constructor; [assumption|constructor].
    + apply IH. assumption.
Qed.

End ListFacts.

Lemma overlaps_false_disjoint (a b : PhiFinding) :
  overlaps a b = false <-> disjoint a b.
Proof.
  unfold overlaps, disjoint. rewrite negb_false_iff, orb_true_iff.
  rewrite !Nat.leb_le. tauto.
Qed.

Lemma disjoint_sym (a b : PhiFinding) : disjoint a b -> disjoint b a.
Proof. unfold disjoint. tauto. Qed.

Lemma insertFinding_perm (f : PhiFinding) (l : list PhiFinding) :
  Permutation (insertFinding f l) (f :: l).
Proof.
  induction l as [|g l IH]; simpl; [reflexivity|].
  destruct (confidence f <? confidence g)%Z; [|reflexivity].
  rewrite IH. apply perm_swap.
Qed.

Lemma sortFindings_perm (l : list PhiFinding) : Permutation (sortFindings l) l.
Proof.
  induction l as [|f l IH]; simpl; [reflexivity|].
  rewrite insertFinding_perm. constructor. exact IH.
Qed.

Lemma insertFinding_sorted (f : PhiFinding) (l : list PhiFinding) :
  StronglySorted byConfidence l -> StronglySorted byConfidence (insertFinding f l).
Proof.
  induction l as [|g l IH]; simpl; intros H.
  - constructor; constructor.
  - apply StronglySorted_inv in H. destruct H as [Hs Hf].
    destruct (confidence f <? confidence g)%Z eqn:E.
    + apply Z.ltb_lt in E. constructor; [exact (IH Hs)|].
      rewrite Forall_forall in *. intros x Hx.
      apply (Permutation_in _ (insertFinding_perm f l)) in Hx.
      destruct Hx as [<-|Hx]; [unfold byConfidence; lia|exact (Hf x Hx)].
    + apply Z.ltb_ge in E. constructor.
      * constructor; assumption.
      * constructor; [exact E|].
        rewrite Forall_forall in *. intros x Hx.
        specialize (Hf x Hx). unfold byConfidence in *. lia.
Qed.

Lemma sortFindings_sorted (l : list PhiFinding) :
  StronglySorted byConfidence (sortFindings l).
Proof.
  induction l as [|f l IH]; simpl; [constructor|].
  apply insertFinding_sorted. exact IH.
Qed.

(** The sort is stable: findings of equal confidence keep their order. *)
Lemma insertFinding_stable (k : Z) (f : PhiFinding) (l : list PhiFinding) :
  filter (fun x => (confidence x =? k)%Z) (insertFinding f l)
  = filter (fun x => (confidence x =? k)%Z) (f :: l).
Proof.
  induction l as [|g l IH]; [reflexivity|].
  cbn [insertFinding]. destruct (confidence f <? confidence g)%Z eqn:E;
    [|reflexivity].
  apply Z.ltb_lt in E. cbn [filter] in *. rewrite IH.
  destruct (confidence f =? k)%Z eqn:Ef; destruct (confidence g =? k)%Z eqn:Eg;
    try reflexivity.
  apply Z.eqb_eq in Ef, Eg. lia.
Qed.

Lemma sortFindings_stable (k : Z) (l : list PhiFinding) :
  filter (fun x => (confidence x =? k)%Z) (sortFindings l)
  = filter (fun x => (confidence x =? k)%Z) l.
Proof.
  induction l as [|f l IH]; [reflexivity|].
  cbn [sortFindings fold_right]. fold (sortFindings l).
  rewrite insertFinding_stable. cbn [filter]. rewrite IH. reflexivity.
Qed.

Lemma deduplicateInto_keeps (todo result : list PhiFinding) (f : PhiFinding) :
  In f result -> In f (deduplicateInto result todo).
Proof.
  revert result. induction todo as [|x todo IH]; intros result H; simpl; [exact H|].
  destruct (find (overlaps x) result); apply IH; [exact H|].
  apply in_or_app. left. exact H.
Qed.

Lemma deduplicateInto_incl (todo result : list PhiFinding) (f : PhiFinding) :
  In f (deduplicateInto result todo) -> In f result \/ In f todo.
Proof.
  revert result. induction todo as [|x todo IH]; intros result H; simpl in *.
  - left. exact H.
  - destruct (find (overlaps x) result).
    + apply IH in H. tauto.
    + apply IH in H. destruct H as [H|H]; [|tauto].
      apply in_app_or in H. simpl in H. tauto.
Qed.

Lemma deduplicateInto_sorted (Rel : PhiFinding -> PhiFinding -> Prop)
      (todo result : list PhiFinding) :
  StronglySorted Rel (result ++ todo) ->
  StronglySorted Rel (deduplicateInto result todo).
Proof.
  revert result. induction todo as [|x todo IH]; intros result H; simpl.
  - rewrite app_nil_r in H. exact H.
  - destruct (find (overlaps x) result).
    + apply IH. exact (StronglySorted_remove _ _ _ H).
    + apply IH. rewrite <- app_assoc. exact H.
Qed.

Lemma deduplicateInto_disjoint (todo result : list PhiFinding) :
  ForallOrdPairs disjoint result ->
  ForallOrdPairs disjoint (deduplicateInto result todo).
Proof.
  revert result. induction todo as [|x todo IH]; intros result H; simpl; [exact H|].
  destruct (find (overlaps x) result) eqn:E; apply IH; [exact H|].
  apply ForallOrdPairs_snoc; [exact H|].
  rewrite Forall_forall. intros y Hy.
  apply disjoint_sym. apply overlaps_false_disjoint.
  exact (find_none _ _ E y Hy).
Qed.

(** A candidate that is dropped overlaps a finding that was accepted
    before it, whose confidence is therefore at least as high. *)
Lemma deduplicateInto_covered (todo result : list PhiFinding) :
  StronglySorted byConfidence (result ++ todo) ->
  forall c, In c todo ->
    In c (deduplicateInto result todo)
    \/ exists f, In f (deduplicateInto result todo)
                 /\ overlaps c f = true
                 /\ (confidence c <= confidence f)%Z.
Proof.
  revert result. induction todo as [|x todo IH]; intros result H c Hc;
    [contradiction|].
  simpl. destruct (find (overlaps x) result) as [g|] eqn:E.
  - destruct Hc as [<-|Hc].
    + right. apply find_some in E. destruct E as [Hg Ho].
      exists g. split; [apply deduplicateInto_keeps; exact Hg|].
      split; [exact Ho|].
      apply (StronglySorted_app_inv _ _ H g x Hg). left. reflexivity.
    + apply IH; [|exact Hc]. exact (StronglySorted_remove _ _ _ H).
  - destruct Hc as [<-|Hc].
    + left. apply deduplicateInto_keeps. apply in_or_app. right. left. reflexivity.
    + apply IH; [|exact Hc]. rewrite <- app_assoc. exact H.
Qed.

(** ** Facts about the scan loops *)

Section ScanFacts.

Variable toLowerCase : JsString -> JsString.
Variable content : JsString.
Variable ctx : ContextType.
Variable strict : bool.

Lemma slice_length (index e : nat) :
  index <= e -> e <= length content ->
  length (slice content index e) = e - index.
Proof.
  intros H1 H2. unfold slice. rewrite length_firstn, length_skipn. lia.
Qed.

Lemma processMatch_Some (p : PhiPattern) (index : nat) (m : JsString)
      (f : PhiFinding) :
  processMatch toLowerCase p content ctx strict index m = Some f ->
  isFalsePositive toLowerCase m content index = false
  /\ type f = name p /\ matched f = m
  /\ startIndex f = index /\ endIndex f = index + length m
  /\ confidence f = clamp (adjustedConfidence p ctx strict)
  /\ (negb strict && (adjustedConfidence p ctx strict <? 50)%Z) = false.
Proof.
  unfold processMatch.
  destruct (isFalsePositive toLowerCase m content index); [discriminate|].
  destruct (negb strict && _); [discriminate|].
  intros H. inversion H; subst f; simpl. repeat split; reflexivity.
Qed.

Lemma scanPattern_total (p : PhiPattern) :
  1 <= minLen (pattern p) ->
  forall fuel lastIndex fs,
    lastIndex <= length content ->
    length content + 2 <= fuel + lastIndex ->
    exists new,
      scanPattern toLowerCase fuel p content ctx strict lastIndex fs
        = Some (fs ++ new)
      /\ Forall (emittedBy toLowerCase content ctx strict p) new.
Proof.
  intros Hp fuel.
  induction fuel as [|fuel IH]; intros lastIndex fs Hl Hf; [lia|].
  simpl.
  destruct (exec (ignoreCase p) content (pattern p) lastIndex) as [[index e]|] eqn:E.
  - apply exec_bounds in E. destruct E as (E1 & E2 & E3).
    destruct (IH e (push fs (processMatch toLowerCase p content ctx strict
                               index (slice content index e))))
      as (new & Hnew & Hall); [exact E3|lia|].
    rewrite Hnew.
    destruct (processMatch toLowerCase p content ctx strict index
                (slice content index e)) as [f|] eqn:Ef; simpl.
    + exists (f :: new). split.
      * rewrite <- app_assoc. reflexivity.
      * constructor; [|exact Hall]. exists index, e.
        repeat split; [lia|exact E3|exact Ef].
    + exists new. split; [reflexivity|exact Hall].
  - exists []. rewrite app_nil_r. split; [reflexivity|constructor].
Qed.

(** Fuel beyond what the loop uses does not change its result. *)
Lemma scanPattern_more_fuel (p : PhiPattern) (fuel fuel' lastIndex : nat)
      (fs out : list PhiFinding) :
  fuel <= fuel' ->
  scanPattern toLowerCase fuel p content ctx strict lastIndex fs = Some out ->
  scanPattern toLowerCase fuel' p content ctx strict lastIndex fs = Some out.
Proof.
  revert fuel' lastIndex fs.
  induction fuel as [|fuel IH]; intros fuel' lastIndex fs Hle H; [discriminate|].
  destruct fuel' as [|fuel']; [lia|]. simpl in *.
  destruct (exec (ignoreCase p) content (pattern p) lastIndex) as [[index e]|];
    [|exact H].
  apply IH; [lia|exact H].
Qed.

Lemma scanPatterns_total (ps : list PhiPattern) :
  Forall (fun p => 1 <= minLen (pattern p)) ps ->
  forall fs, exists new,
    scanPatterns toLowerCase ps content ctx strict fs = Some (fs ++ new)
    /\ Forall (fun f => exists p, In p ps /\ emittedBy toLowerCase content ctx strict p f) new.
Proof.
  induction 1 as [|p ps Hp Hps IH]; intros fs; cbn [scanPatterns].
  - exists []. rewrite app_nil_r. split; [reflexivity|constructor].
  - destruct (@scanPattern_total p Hp (S (S (length content))) 0 fs)
      as (new1 & H1 & A1); [lia|lia|].
    rewrite H1. destruct (IH (fs ++ new1)) as (new2 & H2 & A2).
    rewrite H2. exists (new1 ++ new2). split.
    + rewrite app_assoc. reflexivity.
    + apply Forall_app. split.
      * rewrite Forall_forall in *. intros f Hf. exists p. split;
          [left; reflexivity|exact (A1 f Hf)].
      * rewrite Forall_forall in *. intros f Hf.
        destruct (A2 f Hf) as (p' & Hin & He). exists p'. split;
          [right; exact Hin|exact He].
Qed.

(** No pattern of the catalog matches the empty string. *)
Lemma PHI_PATTERNS_nonempty :
  Forall (fun p => 1 <= minLen (pattern p)) PHI_PATTERNS.
Proof.
  unfold PHI_PATTERNS. repeat constructor; vm_compute; lia.
Qed.

(** The scan always returns, and every raw candidate was pushed by the
    loop body for a match of some catalog pattern. *)
Lemma candidates_total :
  exists raw,
    candidates toLowerCase content ctx strict = Some raw
    /\ Forall (emitted toLowerCase content ctx strict) raw.
Proof.
  destruct (scanPatterns_total PHI_PATTERNS_nonempty []) as (new & H & A).
  exists new. split; [exact H|exact A].
Qed.

Lemma detectPhi_total :
  exists raw,
    candidates toLowerCase content ctx strict = Some raw
    /\ Forall (emitted toLowerCase content ctx strict) raw
    /\ detectPhi toLowerCase content ctx strict
       = Some {| findings := deduplicateFindings (sortFindings raw);
                 scannedLength := length content;
                 context := ctx;
                 strictMode := strict |}.
Proof.
  destruct candidates_total as (raw & H & A).
  exists raw. unfold detectPhi. rewrite H. repeat split; assumption.
Qed.

(** Every finding of the result is one of the raw candidates. *)
Lemma deduplicated_raw (raw : list PhiFinding) (f : PhiFinding) :
  In f (deduplicateFindings (sortFindings raw)) -> In f raw.
Proof.
  intros H. apply deduplicateInto_incl in H. destruct H as [[]|H].
  exact (Permutation_in _ (sortFindings_perm raw) H).
Qed.

(** What holds of a finding that the loop body pushed. *)
Lemma emitted_shape (f : PhiFinding) :
  emitted toLowerCase content ctx strict f ->
  startIndex f < endIndex f /\ endIndex f <= length content
  /\ matched f = slice content (startIndex f) (endIndex f)
  /\ length (matched f) = endIndex f - startIndex f
  /\ isFalsePositive toLowerCase (matched f) content (startIndex f) = false
  /\ (0 <= confidence f <= 100)%Z.
Proof.
  intros (p & _ & index & e & H1 & H2 & H).
  apply processMatch_Some in H.
  destruct H as (Hfp & _ & Hm & Hs & He & Hc & _).
  assert (Hlen : length (slice content index e) = e - index)
    by (apply slice_length; lia).
  rewrite Hm, Hs, He, Hlen in *.
  replace (index + (e - index)) with e by lia.
  repeat split; try lia; try assumption; try reflexivity.
  - rewrite Hc. unfold clamp. lia.
  - rewrite Hc. unfold clamp. lia.
Qed.

End ScanFacts.

(** ** The scan depends on [toLowerCase] through the surroundings only *)

Section LowerCase.

Variables lower1 lower2 : JsString -> JsString.
Variable content : JsString.
Hypothesis agree : forall a b, lower1 (slice content a b) = lower2 (slice content a b).

Lemma isFalsePositive_ext (m : JsString) (index : nat) :
  isFalsePositive lower1 m content index = isFalsePositive lower2 m content index.
Proof. unfold isFalsePositive. rewrite agree. reflexivity. Qed.

Lemma processMatch_ext (p : PhiPattern) (ctx : ContextType) (strict : bool)
      (index : nat) (m : JsString) :
  processMatch lower1 p content ctx strict index m
  = processMatch lower2 p content ctx strict index m.
Proof. unfold processMatch. rewrite isFalsePositive_ext. reflexivity. Qed.

Lemma scanPattern_ext (p : PhiPattern) (ctx : ContextType) (strict : bool)
      (fuel lastIndex : nat) (fs : list PhiFinding) :
  scanPattern lower1 fuel p content ctx strict lastIndex fs
  = scanPattern lower2 fuel p content ctx strict lastIndex fs.
Proof.
  revert lastIndex fs. induction fuel as [|fuel IH]; intros lastIndex fs;
    [reflexivity|].
  simpl. destruct (exec (ignoreCase p) content (pattern p) lastIndex) as [[i e]|];
    [|reflexivity].
  rewrite processMatch_ext. apply IH.
Qed.

Lemma scanPatterns_ext (ps : list PhiPattern) (ctx : ContextType) (strict : bool)
      (fs : list PhiFinding) :
  scanPatterns lower1 ps content ctx strict fs
  = scanPatterns lower2 ps content ctx strict fs.
Proof.
  revert fs. induction ps as [|p ps IH]; intros fs; [reflexivity|].
  cbn [scanPatterns]. rewrite scanPattern_ext.
  destruct (scanPattern lower2 _ p content ctx strict 0 fs); [apply IH|reflexivity].
Qed.

Lemma detectPhi_ext (ctx : ContextType) (strict : bool) :
  detectPhi lower1 content ctx strict = detectPhi lower2 content ctx strict.
Proof.
  unfold detectPhi, candidates. rewrite scanPatterns_ext. reflexivity.
Qed.

End LowerCase.

Lemma Forall_slice (P : CodeUnit -> Prop) (s : JsString) (a b : nat) :
  Forall P s -> Forall P (slice s a b).
Proof.
  intros H. unfold slice.
  assert (Hs : Forall P (skipn a s)).
  { rewrite <- (firstn_skipn a s) in H. apply Forall_app in H. tauto. }
  rewrite <- (firstn_skipn (b - a) (skipn a s)) in Hs.
  apply Forall_app in Hs. tauto.
Qed.

(** On ASCII text every conformant [toLowerCase] gives the same scan. *)
Lemma detectPhi_ascii (toLowerCase : JsString -> JsString) (content : JsString)
      (ctx : ContextType) (strict : bool) :
  asciiConformant toLowerCase -> Forall isAscii content ->
  detectPhi toLowerCase content ctx strict
  = detectPhi asciiToLowerCase content ctx strict.
Proof.
  intros Hc Ha. apply detectPhi_ext. intros a b.
  apply Hc. apply Forall_slice. exact Ha.
Qed.

Lemma candidates_ascii (toLowerCase : JsString -> JsString) (content : JsString)
      (ctx : ContextType) (strict : bool) :
  asciiConformant toLowerCase -> Forall isAscii content ->
  candidates toLowerCase content ctx strict
  = candidates asciiToLowerCase content ctx strict.
Proof.
  intros Hc Ha. apply scanPatterns_ext. intros a b.
  apply Hc. apply Forall_slice. exact Ha.
Qed.

Lemma asciiToLowerCase_conformant : asciiConformant asciiToLowerCase.
Proof. intros s _. reflexivity. Qed.

Lemma isAscii_dec_Forall (s : JsString) :
  forallb (fun c => (c <? 128)%N) s = true -> Forall isAscii s.
Proof.
  intros H. rewrite forallb_forall in H. apply Forall_forall.
  intros c Hc. apply N.ltb_lt. exact (H c Hc).
Qed.

(** * The claims *)

(** ** Confidence arithmetic *)

(** C1. For a candidate match that passed the false-positive filter, the
    loop body of [detectPhi] emits a finding exactly when the scorer of
    the specification does not discard the candidate, and the finding's
    confidence is the one the scorer computes by its five steps in
    order: base confidence, context delta when defined, strict-mode boost
    of 15 below 70, floor of 50 outside strict mode, clamp to [0, 100].
    In strict mode the candidate is never discarded. *)
Theorem confidence_follows_scorer_steps
        (toLowerCase : JsString -> JsString) (p : PhiPattern)
        (content : JsString) (ctx : ContextType) (strict : bool)
        (index : nat) (m : JsString) :
  isFalsePositive toLowerCase m content index = false ->
  option_map confidence (processMatch toLowerCase p content ctx strict index m)
  = specConfidence (baseConfidence p) (contextModifiers p) ctx strict
  /\ (strict = true ->
      processMatch toLowerCase p content ctx strict index m <> None).
Proof.
  intros Hfp. unfold processMatch, specConfidence, adjustedConfidence,
    contextConfidence, clamp.
  rewrite Hfp. split.
  - destruct strict; simpl.
    + destruct (contextModifiers p) as [mods|];
        [destruct (lookupModifier mods ctx)|]; simpl;
        match goal with |- context [(?a <? 70)%Z] => destruct (a <? 70)%Z end;
        reflexivity.
    + destruct (contextModifiers p) as [mods|];
        [destruct (lookupModifier mods ctx)|]; simpl;
        match goal with |- context [(?a <? 50)%Z] => destruct (a <? 50)%Z end;
        reflexivity.
  - intros ->. simpl. discriminate.
Qed.

Lemma confidence_follows_scorer_steps_witness :
  isFalsePositive asciiToLowerCase (str "234-56-7890") unlistedSsnScenario 7 = false
  /\ option_map confidence
       (processMatch asciiToLowerCase ssn unlistedSsnScenario code true 7
                     (str "234-56-7890"))
     = Some 80%Z.
Proof.
  split; [vm_compute; reflexivity|].
  destruct (@confidence_follows_scorer_steps asciiToLowerCase ssn
              unlistedSsnScenario code true 7 (str "234-56-7890")) as [H _];
    [vm_compute; reflexivity|].
  rewrite H. vm_compute. reflexivity.
Defined.

(** C9. For a candidate whose base-plus-context confidence is below 70,
    strict mode raises the confidence before the clamp by exactly 15
    over the non-strict computation, the candidate is emitted in strict
    mode, and its confidence there is not below the one of the
    non-strict scan, whenever that scan emits it. *)
Theorem strict_mode_raises_borderline
        (toLowerCase : JsString -> JsString) (p : PhiPattern)
        (content : JsString) (ctx : ContextType) (index : nat) (m : JsString) :
  isFalsePositive toLowerCase m content index = false ->
  (contextConfidence p ctx < 70)%Z ->
  adjustedConfidence p ctx true = (adjustedConfidence p ctx false + 15)%Z
  /\ exists f,
       processMatch toLowerCase p content ctx true index m = Some f
       /\ confidence f = clamp (contextConfidence p ctx + 15)
       /\ forall g,
            processMatch toLowerCase p content ctx false index m = Some g ->
            confidence g = clamp (contextConfidence p ctx)
            /\ (confidence g <= confidence f)%Z.
Proof.
  intros Hfp Hlt. unfold processMatch, adjustedConfidence. rewrite Hfp.
  apply Z.ltb_lt in Hlt. rewrite Hlt. simpl. split; [reflexivity|].
  eexists. split; [reflexivity|]. simpl. split; [reflexivity|].
  intros g. destruct (contextConfidence p ctx <? 50)%Z; [discriminate|].
  intros H. inversion H; subst g; simpl. unfold clamp. split; [reflexivity|lia].
Qed.

Lemma strict_mode_raises_borderline_witness :
  adjustedConfidence ssn code true = 80%Z
  /\ adjustedConfidence ssn code false = 65%Z.
Proof.
  destruct (@strict_mode_raises_borderline asciiToLowerCase ssn
              unlistedSsnScenario code 7 (str "234-56-7890")) as [H _].
  - vm_compute. reflexivity.
  - vm_compute. reflexivity.
  - split; [rewrite H|]; vm_compute; reflexivity.
Defined.

(** ** Invariants of the scan result *)

(** C8. Every scan returns a result, and every finding in it has a
    confidence between 0 and 100. *)
Theorem confidence_within_bounds
        (toLowerCase : JsString -> JsString) (content : JsString)
        (ctx : ContextType) (strict : bool) :
  exists res,
    detectPhi toLowerCase content ctx strict = Some res
    /\ Forall (fun f => (0 <= confidence f <= 100)%Z) (findings res).
Proof.
  destruct (detectPhi_total toLowerCase content ctx strict) as (raw & _ & A & H).
  eexists. split; [exact H|]. simpl.
  rewrite Forall_forall in *. intros f Hf.
  apply deduplicated_raw in Hf.
  destruct (emitted_shape (A f Hf)) as (_ & _ & _ & _ & _ & Hc). exact Hc.
Qed.

(** C10. Every scan returns a result, and every finding in it has a
    non-empty [match] that is exactly the substring of the scanned text
    from [startIndex] to [endIndex]; so [startIndex < endIndex], the
    range lies within the text, and the length of [match] is
    [endIndex - startIndex]. *)
Theorem match_is_the_substring
        (toLowerCase : JsString -> JsString) (content : JsString)
        (ctx : ContextType) (strict : bool) :
  exists res,
    detectPhi toLowerCase content ctx strict = Some res
    /\ Forall (fun f =>
                 matched f <> []
                 /\ matched f = slice content (startIndex f) (endIndex f)
                 /\ startIndex f < endIndex f
                 /\ endIndex f <= length content
                 /\ length (matched f) = endIndex f - startIndex f)
              (findings res).
Proof.
  destruct (detectPhi_total toLowerCase content ctx strict) as (raw & _ & A & H).
  eexists. split; [exact H|]. simpl.
  rewrite Forall_forall in *. intros f Hf.
  apply deduplicated_raw in Hf.
  destruct (emitted_shape (A f Hf)) as (H1 & H2 & H3 & H4 & _).
  repeat split; try assumption.
  intros E. rewrite E in H4. simpl in H4. lia.
Qed.

(** C2. Every scan returns a result whose findings are in descending
    order of confidence and in which any two distinct findings have
    disjoint ranges. *)
Theorem findings_sorted_and_disjoint
        (toLowerCase : JsString -> JsString) (content : JsString)
        (ctx : ContextType) (strict : bool) :
  exists res,
    detectPhi toLowerCase content ctx strict = Some res
    /\ StronglySorted byConfidence (findings res)
    /\ forall f1 f2, In f1 (findings res) -> In f2 (findings res) -> f1 <> f2 ->
         endIndex f1 <= startIndex f2 \/ endIndex f2 <= startIndex f1.
Proof.
  destruct (detectPhi_total toLowerCase content ctx strict) as (raw & _ & _ & H).
  eexists. split; [exact H|]. simpl. split.
  - apply deduplicateInto_sorted. simpl. apply sortFindings_sorted.
  - intros f1 f2 H1 H2 Hne.
    assert (P : ForallOrdPairs disjoint (deduplicateFindings (sortFindings raw)))
      by (apply deduplicateInto_disjoint; constructor).
    destruct (ForallOrdPairs_In P f1 f2 H1 H2) as [E|[D|D]].
    + contradiction.
    + exact D.
    + apply disjoint_sym. exact D.
Qed.

(** ** Overlap resolution *)

Lemma PhiFinding_eq_dec (f g : PhiFinding) : {f = g} + {f <> g}.
Proof.
  decide equality; try apply Nat.eq_dec; try apply string_dec;
    try apply Z.eq_dec.
  - decide equality.
  - apply (list_eq_dec N.eq_dec).
Qed.

(** C3, as stated, fails: in "patient name: John MRN: 123456789" the
    record-number candidate (90) and the patient-name candidate (88)
    overlap each other, the record number is the better of the two, and
    it is dropped because it overlaps the SSN-shaped candidate (95) that
    was accepted before it. *)
Lemma best_of_overlapping_pair_is_dropped :
  ~ bestOfEveryOverlappingSetSurvives asciiToLowerCase chainScenario general false.
Proof.
  intros H.
  pose (raw := match candidates asciiToLowerCase chainScenario general false with
               | Some x => x | None => [] end).
  pose (res := match detectPhi asciiToLowerCase chainScenario general false with
               | Some x => x | None => noResult end).
  specialize (H raw res [chainRecordNumber; chainPatientName] chainRecordNumber).
  assert (Hin : In chainRecordNumber (findings res)).
  { apply H.
    - vm_compute. reflexivity.
    - vm_compute. reflexivity.
    - intros x [<-|[<-|[]]]; vm_compute; auto.
    - intros a b [<-|[<-|[]]] [<-|[<-|[]]]; reflexivity.
    - left. reflexivity.
    - intros a [<-|[<-|[]]]; vm_compute; discriminate. }
  vm_compute in Hin.
  destruct Hin as [Hin|[Hin|[]]]; discriminate Hin.
Qed.

(** C3, amended. Every scan returns; a raw candidate is absent from the
    result only if the result holds a finding that overlaps it and whose
    confidence is at least as high; so a candidate whose confidence is
    strictly above that of every other raw candidate overlapping it is in
    the result. *)
Theorem dropped_candidate_is_dominated
        (toLowerCase : JsString -> JsString) (content : JsString)
        (ctx : ContextType) (strict : bool) :
  exists raw res,
    candidates toLowerCase content ctx strict = Some raw
    /\ detectPhi toLowerCase content ctx strict = Some res
    /\ (forall c, In c raw ->
          In c (findings res)
          \/ exists f, In f (findings res) /\ overlaps c f = true
                       /\ (confidence c <= confidence f)%Z)
    /\ (forall c, In c raw ->
          (forall g, In g raw -> g <> c -> overlaps c g = true ->
                     (confidence g < confidence c)%Z) ->
          In c (findings res)).
Proof.
  destruct (detectPhi_total toLowerCase content ctx strict) as (raw & Hr & _ & H).
  eexists. eexists. split; [exact Hr|]. split; [exact H|]. simpl.
  assert (Hcov : forall c, In c raw ->
            In c (deduplicateFindings (sortFindings raw))
            \/ exists f, In f (deduplicateFindings (sortFindings raw))
                         /\ overlaps c f = true
                         /\ (confidence c <= confidence f)%Z).
  { intros c Hc. apply deduplicateInto_covered.
    - simpl. apply sortFindings_sorted.
    - apply (Permutation_in _ (Permutation_sym (sortFindings_perm raw))). exact Hc. }
  split; [exact Hcov|].
  intros c Hc Hbest. destruct (Hcov c Hc) as [Hin|(f & Hf & Ho & Hle)];
    [exact Hin|].
  destruct (PhiFinding_eq_dec f c) as [->|Hne]; [exact Hf|].
  specialize (Hbest f (deduplicated_raw _ _ Hf) Hne Ho). lia.
Qed.

(** ** False-positive suppression *)

(** A matched text that contains the literal "000-00-0000" is a false
    positive, whatever surrounds it. *)
Lemma zeros_inside_match_is_false_positive
      (toLowerCase : JsString -> JsString) (content m : JsString) (index j : nat) :
  j <= length m ->
  firstn 11 (skipn j m) = str "000-00-0000" ->
  isFalsePositive toLowerCase m content index = true.
Proof.
  intros Hj H. unfold isFalsePositive.
  assert (E : existsb (fun fp => RegExp.test (snd fp) (fst fp) m)
                      FALSE_POSITIVE_PATTERNS = true).
  { apply existsb_exists. exists (lit "000-00-0000", false). split.
    - unfold FALSE_POSITIVE_PATTERNS. simpl. tauto.
    - simpl. apply test_literal with (j := j); [exact Hj|exact H]. }
  rewrite E. reflexivity.
Qed.

Lemma slice_of_slice (content : JsString) (s e pos n : nat) :
  s <= pos -> pos + n <= e ->
  firstn n (skipn (pos - s) (slice content s e)) = slice content pos (pos + n).
Proof.
  intros H1 H2. unfold slice.
  rewrite skipn_firstn_comm, skipn_skipn, firstn_firstn.
  replace (pos - s + s) with pos by lia.
  replace (Nat.min n (e - s - (pos - s))) with n by lia.
  replace (pos + n - pos) with n by lia. reflexivity.
Qed.

(** C7. Whenever the literal "000-00-0000" occurs in the scanned text,
    at position [pos], the scan returns a result in which no SSN finding
    covers that occurrence, in every context and strict-mode setting. *)
Theorem all_zero_ssn_never_reported
        (toLowerCase : JsString -> JsString) (content : JsString)
        (ctx : ContextType) (strict : bool) (pos : nat) :
  slice content pos (pos + 11) = str "000-00-0000" ->
  exists res,
    detectPhi toLowerCase content ctx strict = Some res
    /\ forall f, In f (findings res) -> hasType ssn f -> ~ covers f pos 11.
Proof.
  intros Hocc.
  destruct (detectPhi_total toLowerCase content ctx strict) as (raw & _ & A & H).
  eexists. split; [exact H|]. simpl. intros f Hf _ [Hs He].
  apply deduplicated_raw in Hf. rewrite Forall_forall in A.
  destruct (emitted_shape (A f Hf)) as (H1 & H2 & H3 & H4 & Hfp & _).
  assert (Hz : isFalsePositive toLowerCase (matched f) content (startIndex f) = true).
  { apply zeros_inside_match_is_false_positive with (j := pos - startIndex f).
    - rewrite H4. lia.
    - rewrite H3. rewrite slice_of_slice by assumption. exact Hocc. }
  congruence.
Qed.

Lemma all_zero_ssn_never_reported_witness :
  slice (str "000-00-0000") 0 (0 + 11) = str "000-00-0000"
  /\ (exists res,
        detectPhi asciiToLowerCase (str "000-00-0000") code true = Some res
        /\ forall f, In f (findings res) -> hasType ssn f -> ~ covers f 0 11)
  /\ forall ctx strict,
       option_map findings
         (detectPhi asciiToLowerCase (str "000-00-0000") ctx strict) = Some [].
Proof.
  split; [reflexivity|]. split.
  - apply (@all_zero_ssn_never_reported asciiToLowerCase (str "000-00-0000")
             code true 0).
    reflexivity.
  - intros ctx strict. destruct ctx, strict; vm_compute; reflexivity.
Defined.

(** ** Scenarios *)

(** C4. Scanning the empty string returns, for every context and
    strict-mode setting, a result with no findings and [scannedLength] 0;
    the scan does not fail. *)
Theorem empty_text_scan
        (toLowerCase : JsString -> JsString) (ctx : ContextType) (strict : bool) :
  detectPhi toLowerCase (str "") ctx strict
  = Some {| findings := []; scannedLength := 0;
            context := ctx; strictMode := strict |}.
Proof.
  destruct ctx, strict; vm_compute; reflexivity.
Qed.

Lemma contextScenario_ascii : Forall isAscii contextScenario.
Proof. apply isAscii_dec_Forall. vm_compute. reflexivity. Qed.

Lemma unlistedSsnScenario_ascii : Forall isAscii unlistedSsnScenario.
Proof. apply isAscii_dec_Forall. vm_compute. reflexivity. Qed.

Lemma recordScenario_ascii : Forall isAscii recordScenario.
Proof. apply isAscii_dec_Forall. vm_compute. reflexivity. Qed.

(** C5, as stated, fails: "123-45-6789" is a listed false positive, so
    the data scan of the text reports no SSN finding, in either
    strict-mode setting, and there is no data-context confidence to
    compare. *)
Lemma listed_example_ssn_yields_no_confidence :
  ~ dataExceedsCode asciiToLowerCase contextScenario false
  /\ ~ dataExceedsCode asciiToLowerCase contextScenario true.
Proof.
  split; intros (resData & fd & H & Hin & _); vm_compute in H;
    inversion H; subst resData; exact Hin.
Qed.

(** C5, amended. Scanning the text with [123-45-6789] yields no finding
    in context code or data, the value being a listed example SSN; an
    SSN match that is not suppressed gets a strictly greater confidence
    in context data than in context code under the same strict-mode
    setting, as the scans of the same text with [234-56-7890] show (95
    against 65, or against 80 in strict mode). *)
Theorem ssn_data_confidence_exceeds_code
        (toLowerCase : JsString -> JsString) (strict : bool) :
  asciiConformant toLowerCase ->
  option_map findings (detectPhi toLowerCase contextScenario data strict) = Some []
  /\ option_map findings (detectPhi toLowerCase contextScenario code strict) = Some []
  /\ option_map (fun r => map summary (findings r))
       (detectPhi toLowerCase unlistedSsnScenario data strict)
     = Some [("Social Security Number", 95%Z, 7, 18)]
  /\ option_map (fun r => map summary (findings r))
       (detectPhi toLowerCase unlistedSsnScenario code strict)
     = Some [("Social Security Number", if strict then 80%Z else 65%Z, 7, 18)]
  /\ forall content index m,
       isFalsePositive toLowerCase m content index = false ->
       exists fd fc,
         processMatch toLowerCase ssn content data strict index m = Some fd
         /\ processMatch toLowerCase ssn content code strict index m = Some fc
         /\ (confidence fc < confidence fd)%Z.
Proof.
  intros Hc.
  pose proof (detectPhi_ascii data strict Hc contextScenario_ascii) as E1.
  pose proof (detectPhi_ascii code strict Hc contextScenario_ascii) as E2.
  pose proof (detectPhi_ascii data strict Hc unlistedSsnScenario_ascii) as E3.
  pose proof (detectPhi_ascii code strict Hc unlistedSsnScenario_ascii) as E4.
  split; [rewrite E1; destruct strict; vm_compute; reflexivity|].
  split; [rewrite E2; destruct strict; vm_compute; reflexivity|].
  split; [rewrite E3; destruct strict; vm_compute; reflexivity|].
  split; [rewrite E4; destruct strict; vm_compute; reflexivity|].
  clear E1 E2 E3 E4.
  intros content index m Hfp. unfold processMatch. rewrite Hfp.
  destruct strict; simpl; eexists; eexists;
    (split; [reflexivity|split; [reflexivity|vm_compute; reflexivity]]).
Qed.

Lemma ssn_data_confidence_exceeds_code_witness :
  asciiConformant asciiToLowerCase
  /\ option_map (fun r => map summary (findings r))
       (detectPhi asciiToLowerCase unlistedSsnScenario code false)
     = Some [("Social Security Number", 65%Z, 7, 18)].
Proof.
  split; [exact asciiToLowerCase_conformant|].
  destruct (@ssn_data_confidence_exceeds_code asciiToLowerCase false
              asciiToLowerCase_conformant) as (_ & _ & _ & H & _).
  exact H.
Defined.

(** C6, as stated, fails: the scan of the record text reports no finding
    of type Medical Record Number. *)
Lemma record_scenario_reports_no_mrn :
  ~ recordScenarioAsStated asciiToLowerCase.
Proof.
  intros (res & H & _ & (f & Hin & Ht) & _).
  vm_compute in H. inversion H; subst res. clear H.
  simpl in Hin. unfold hasType in Ht.
  destruct Hin as [<-|[<-|[<-|[]]]]; vm_compute in Ht; discriminate Ht.
Qed.

(** C6, amended. The scan of the record text in context general with
    strict mode off returns exactly three findings: a Social Security
    Number finding (95) over the digits "123456789", the explicit date
    of birth (92) and the phone number (65), each with confidence at
    least 50, with pairwise disjoint ranges, in descending order of
    confidence.  The Medical Record Number candidate (90, range 8 to 22)
    is among the raw candidates and is dropped because it overlaps the
    Social Security Number finding. *)
Theorem record_scenario_findings (toLowerCase : JsString -> JsString) :
  asciiConformant toLowerCase ->
  exists res,
    detectPhi toLowerCase recordScenario general false = Some res
    /\ map summary (findings res)
       = [("Social Security Number", 95%Z, 13, 22);
          ("Date of Birth (Explicit)", 92%Z, 24, 39);
          ("Phone Number", 65%Z, 49, 62)]
    /\ map matched (findings res)
       = [str "123456789"; str "DOB: 01/15/1985"; str "555) 123-4567"]
    /\ option_map (map summary)
         (candidates toLowerCase recordScenario general false)
       = Some [("Social Security Number", 95%Z, 13, 22);
               ("Medical Record Number", 90%Z, 8, 22);
               ("Phone Number", 65%Z, 49, 62);
               ("Date of Birth (Explicit)", 92%Z, 24, 39)]
    /\ Forall (fun f => (50 <= confidence f)%Z) (findings res)
    /\ ForallOrdPairs disjoint (findings res)
    /\ StronglySorted byConfidence (findings res).
Proof.
  intros Hc.
  pose proof (detectPhi_ascii general false Hc recordScenario_ascii) as E1.
  pose proof (candidates_ascii general false Hc recordScenario_ascii) as E2.
  rewrite E1, E2. clear E1 E2.
  destruct (detectPhi asciiToLowerCase recordScenario general false)
    as [res|] eqn:E; vm_compute in E; [|discriminate E].
  inversion E; subst res. clear E.
  eexists. split; [reflexivity|].
  split; [vm_compute; reflexivity|].
  split; [vm_compute; reflexivity|].
  split; [vm_compute; reflexivity|].
  split; [|split].
  - repeat constructor; simpl; lia.
  - repeat constructor; unfold disjoint; simpl; lia.
  - repeat constructor; unfold byConfidence; simpl; lia.
Qed.

Lemma record_scenario_findings_witness :
  asciiConformant asciiToLowerCase
  /\ exists res,
       detectPhi asciiToLowerCase recordScenario general false = Some res
       /\ length (findings res) = 3.
Proof.
  split; [exact asciiToLowerCase_conformant|].
  destruct (@record_scenario_findings asciiToLowerCase
              asciiToLowerCase_conformant) as (res & H & Hs & _).
  exists res. split; [exact H|].
  rewrite <- (length_map summary). rewrite Hs. reflexivity.
Defined.

(** * Further properties of the engine *)

Section ScanSoundness.

Variable toLowerCase : JsString -> JsString.
Variable content : JsString.
Variable ctx : ContextType.
Variable strict : bool.

Lemma searchFrom_matchAt (icase : bool) (r : Regex) (n i j e : nat) :
  searchFrom icase content r n i = Some (j, e) ->
  matchAt icase content r j = Some e.
Proof.
  revert i. induction n as [|n IH]; intros i; simpl; [discriminate|].
  destruct (matchAt icase content r i) as [e'|] eqn:E.
  - intros H. inversion H; subst. exact E.
  - apply IH.
Qed.

Lemma processMatch_fields (p : PhiPattern) (index : nat) (m : JsString)
      (f : PhiFinding) :
  processMatch toLowerCase p content ctx strict index m = Some f ->
  findingCategory f = category p
  /\ findingHipaaIdentifier f = hipaaIdentifier p
  /\ explanation f = getExplanation p (confidence f).
Proof.
  unfold processMatch.
  destruct (isFalsePositive toLowerCase m content index); [discriminate|].
  destruct (negb strict && _); [discriminate|].
  intros H. inversion H; subst f; simpl. repeat split; reflexivity.
Qed.

Lemma scanPattern_genuine (p : PhiPattern) (fuel lastIndex : nat)
      (fs out : list PhiFinding) :
  scanPattern toLowerCase fuel p content ctx strict lastIndex fs = Some out ->
  exists new, out = fs ++ new
              /\ Forall (genuineMatch toLowerCase content p) new.
Proof.
  revert lastIndex fs. induction fuel as [|fuel IH]; intros lastIndex fs;
    simpl; [discriminate|].
  destruct (exec (ignoreCase p) content (pattern p) lastIndex)
    as [[index e]|] eqn:E.
  - intros H. apply IH in H. destruct H as (new & -> & Hall).
    pose proof (exec_bounds _ _ _ _ E) as (B1 & B2 & B3).
    unfold exec in E. apply searchFrom_matchAt in E.
    destruct (processMatch toLowerCase p content ctx strict index
                (slice content index e)) as [f|] eqn:Ef; simpl.
    + exists (f :: new). split; [rewrite <- app_assoc; reflexivity|].
      constructor; [|exact Hall].
      pose proof (processMatch_fields _ _ _ Ef) as (F1 & F2 & F3).
      apply processMatch_Some in Ef.
      destruct Ef as (Hfp & Ht & Hm & Hs & He & _).
      assert (Hlen : length (slice content index e) = e - index)
        by (apply slice_length; lia).
      unfold genuineMatch. rewrite Hm, Hs, He, Hlen.
      replace (index + (e - index)) with e by lia.
      repeat split; assumption.
    + exists new. split; [reflexivity|exact Hall].
  - intros H. inversion H; subst out. exists []. rewrite app_nil_r.
    split; [reflexivity|constructor].
Qed.

Lemma scanPatterns_genuine (ps : list PhiPattern) (fs out : list PhiFinding) :
  scanPatterns toLowerCase ps content ctx strict fs = Some out ->
  exists new, out = fs ++ new
              /\ Forall (fun f => exists p, In p ps
                                  /\ genuineMatch toLowerCase content p f) new.
Proof.
  revert fs. induction ps as [|p ps IH]; intros fs; cbn [scanPatterns].
  - intros H. inversion H; subst out. exists []. rewrite app_nil_r.
    split; [reflexivity|constructor].
  - destruct (scanPattern toLowerCase (S (S (length content))) p content ctx
                strict 0 fs) as [fs'|] eqn:E; [|discriminate].
    intros H. apply scanPattern_genuine in E. destruct E as (new1 & -> & A1).
    apply IH in H. destruct H as (new2 & -> & A2).
    exists (new1 ++ new2). split; [rewrite app_assoc; reflexivity|].
    apply Forall_app. split; rewrite Forall_forall in *.
    + intros f Hf. exists p. split; [left; reflexivity|exact (A1 f Hf)].
    + intros f Hf. destruct (A2 f Hf) as (p' & Hin & Hg).
      exists p'. split; [right; exact Hin|exact Hg].
Qed.

(** X2. Every finding of a scan result is a genuine match of a catalog
    pattern: that pattern's expression matches the text from
    [startIndex] to [endIndex], the false-positive filter accepted the
    match, and type, category, identifier and explanation are those of
    the pattern. *)
Theorem findings_are_genuine_matches :
  exists res,
    detectPhi toLowerCase content ctx strict = Some res
    /\ Forall (fun f => exists p, In p PHI_PATTERNS
                          /\ genuineMatch toLowerCase content p f)
              (findings res).
Proof.
  destruct (detectPhi_total toLowerCase content ctx strict) as (raw & Hr & _ & H).
  eexists. split; [exact H|]. simpl.
  unfold candidates in Hr. apply scanPatterns_genuine in Hr.
  destruct Hr as (new & -> & A). simpl in *.
  rewrite Forall_forall in *. intros f Hf. apply A.
  exact (deduplicated_raw _ _ Hf).
Qed.

End ScanSoundness.

Lemma emitted_floor (toLowerCase : JsString -> JsString) (content : JsString)
      (ctx : ContextType) (f : PhiFinding) :
  emitted toLowerCase content ctx false f -> (50 <= confidence f)%Z.
Proof.
  intros (p & _ & index & e & _ & _ & Hp).
  apply processMatch_Some in Hp.
  destruct Hp as (_ & _ & _ & _ & _ & Hc & Hfloor).
  simpl in Hfloor. apply Z.ltb_ge in Hfloor.
  rewrite Hc. unfold clamp. lia.
Qed.

(** X1. Outside strict mode no finding has a confidence below 50. *)
Theorem non_strict_findings_reach_floor
        (toLowerCase : JsString -> JsString) (content : JsString)
        (ctx : ContextType) :
  exists res,
    detectPhi toLowerCase content ctx false = Some res
    /\ Forall (fun f => (50 <= confidence f)%Z) (findings res).
Proof.
  destruct (detectPhi_total toLowerCase content ctx false) as (raw & _ & A & H).
  eexists. split; [exact H|]. simpl.
  rewrite Forall_forall in *. intros f Hf.
  apply deduplicated_raw in Hf. exact (emitted_floor (A f Hf)).
Qed.

(** ** Strict mode and context *)

Section Modes.

Variable toLowerCase : JsString -> JsString.
Variable content : JsString.

Lemma processMatch_strict_covers (p : PhiPattern) (ctx : ContextType)
      (index : nat) (m : JsString) (g : PhiFinding) :
  processMatch toLowerCase p content ctx false index m = Some g ->
  exists g',
    processMatch toLowerCase p content ctx true index m = Some g'
    /\ skeleton g' = skeleton g /\ (confidence g <= confidence g')%Z.
Proof.
  unfold processMatch, adjustedConfidence.
  destruct (isFalsePositive toLowerCase m content index); [discriminate|].
  simpl. destruct (contextConfidence p ctx <? 50)%Z eqn:E; [discriminate|].
  intros H. inversion H; subst g. clear H.
  eexists. split; [reflexivity|]. split; [reflexivity|]. simpl.
  destruct (contextConfidence p ctx <? 70)%Z; lia.
Qed.

Lemma processMatch_strict_context (p : PhiPattern) (ctx1 ctx2 : ContextType)
      (index : nat) (m : JsString) :
  option_map skeleton (processMatch toLowerCase p content ctx1 true index m)
  = option_map skeleton (processMatch toLowerCase p content ctx2 true index m).
Proof.
  unfold processMatch.
  destruct (isFalsePositive toLowerCase m content index); reflexivity.
Qed.

Lemma scanPattern_strict_covers (p : PhiPattern) (ctx : ContextType)
      (fuel lastIndex : nat) (fsN fsS outN outS : list PhiFinding) :
  (forall c, In c fsN ->
     exists c', In c' fsS /\ skeleton c' = skeleton c
                /\ (confidence c <= confidence c')%Z) ->
  scanPattern toLowerCase fuel p content ctx false lastIndex fsN = Some outN ->
  scanPattern toLowerCase fuel p content ctx true lastIndex fsS = Some outS ->
  forall c, In c outN ->
    exists c', In c' outS /\ skeleton c' = skeleton c
               /\ (confidence c <= confidence c')%Z.
Proof.
  revert lastIndex fsN fsS.
  induction fuel as [|fuel IH]; intros lastIndex fsN fsS Hinv; simpl;
    [discriminate|].
  destruct (exec (ignoreCase p) content (pattern p) lastIndex) as [[index e]|].
  - apply IH. intros c Hc.
    destruct (processMatch toLowerCase p content ctx false index
                (slice content index e)) as [g|] eqn:Eg; simpl in Hc.
    + destruct (processMatch_strict_covers _ _ _ _ Eg) as (g' & Eg' & Hs & Hle).
      rewrite Eg'. simpl. apply in_app_or in Hc. destruct Hc as [Hc|[<-|[]]].
      * destruct (Hinv c Hc) as (c' & H1 & H2 & H3).
        exists c'. split; [apply in_or_app; left; exact H1|]. tauto.
      * exists g'. split; [apply in_or_app; right; left; reflexivity|]. tauto.
    + destruct (Hinv c Hc) as (c' & H1 & H2 & H3). exists c'.
      split; [|tauto].
      destruct (processMatch toLowerCase p content ctx true index
                  (slice content index e)); simpl;
        [apply in_or_app; left; exact H1|exact H1].
  - intros HN HS. inversion HN; inversion HS; subst. exact Hinv.
Qed.

Lemma scanPatterns_strict_covers (ps : list PhiPattern) (ctx : ContextType)
      (fsN fsS outN outS : list PhiFinding) :
  (forall c, In c fsN ->
     exists c', In c' fsS /\ skeleton c' = skeleton c
                /\ (confidence c <= confidence c')%Z) ->
  scanPatterns toLowerCase ps content ctx false fsN = Some outN ->
  scanPatterns toLowerCase ps content ctx true fsS = Some outS ->
  forall c, In c outN ->
    exists c', In c' outS /\ skeleton c' = skeleton c
               /\ (confidence c <= confidence c')%Z.
Proof.
  revert fsN fsS. induction ps as [|p ps IH]; intros fsN fsS Hinv;
    cbn [scanPatterns].
  - intros HN HS. inversion HN; inversion HS; subst. exact Hinv.
  - destruct (scanPattern toLowerCase _ p content ctx false 0 fsN)
      as [fsN'|] eqn:EN; [|discriminate].
    destruct (scanPattern toLowerCase _ p content ctx true 0 fsS)
      as [fsS'|] eqn:ES; [|discriminate].
    apply IH. exact (scanPattern_strict_covers _ _ _ _ _ _ Hinv EN ES).
Qed.

Lemma scanPattern_strict_context (p : PhiPattern) (ctx1 ctx2 : ContextType)
      (fuel lastIndex : nat) (fs1 fs2 out1 out2 : list PhiFinding) :
  map skeleton fs1 = map skeleton fs2 ->
  scanPattern toLowerCase fuel p content ctx1 true lastIndex fs1 = Some out1 ->
  scanPattern toLowerCase fuel p content ctx2 true lastIndex fs2 = Some out2 ->
  map skeleton out1 = map skeleton out2.
Proof.
  revert lastIndex fs1 fs2.
  induction fuel as [|fuel IH]; intros lastIndex fs1 fs2 Hinv; simpl;
    [discriminate|].
  destruct (exec (ignoreCase p) content (pattern p) lastIndex) as [[index e]|].
  - apply IH.
    pose proof (processMatch_strict_context p ctx1 ctx2 index
                  (slice content index e)) as Hp.
    destruct (processMatch toLowerCase p content ctx1 true index _) as [g1|];
      destruct (processMatch toLowerCase p content ctx2 true index _) as [g2|];
      simpl in *; try discriminate; [|exact Hinv].
    rewrite !map_app, Hinv. simpl. congruence.
  - intros H1 H2. inversion H1; inversion H2; subst. exact Hinv.
Qed.

Lemma scanPatterns_strict_context (ps : list PhiPattern) (ctx1 ctx2 : ContextType)
      (fs1 fs2 out1 out2 : list PhiFinding) :
  map skeleton fs1 = map skeleton fs2 ->
  scanPatterns toLowerCase ps content ctx1 true fs1 = Some out1 ->
  scanPatterns toLowerCase ps content ctx2 true fs2 = Some out2 ->
  map skeleton out1 = map skeleton out2.
Proof.
  revert fs1 fs2. induction ps as [|p ps IH]; intros fs1 fs2 Hinv;
    cbn [scanPatterns].
  - intros H1 H2. inversion H1; inversion H2; subst. exact Hinv.
  - destruct (scanPattern toLowerCase _ p content ctx1 true 0 fs1)
      as [fs1'|] eqn:E1; [|discriminate].
    destruct (scanPattern toLowerCase _ p content ctx2 true 0 fs2)
      as [fs2'|] eqn:E2; [|discriminate].
    apply IH. exact (scanPattern_strict_context _ _ _ _ _ _ _ Hinv E1 E2).
Qed.

(** X4. The context changes scores only: in strict mode, where nothing is
    dropped for its score, the raw candidates of two scans of one text
    in different contexts agree in number, order, type, matched text and
    range. *)
Theorem context_never_changes_matching (ctx1 ctx2 : ContextType) :
  exists raw1 raw2,
    candidates toLowerCase content ctx1 true = Some raw1
    /\ candidates toLowerCase content ctx2 true = Some raw2
    /\ map skeleton raw1 = map skeleton raw2.
Proof.
  destruct (candidates_total toLowerCase content ctx1 true) as (raw1 & H1 & _).
  destruct (candidates_total toLowerCase content ctx2 true) as (raw2 & H2 & _).
  exists raw1, raw2. split; [exact H1|]. split; [exact H2|].
  exact (scanPatterns_strict_context _ _ _ _ _ eq_refl H1 H2).
Qed.

(** X3. Whatever a scan reports outside strict mode stays flagged in
    strict mode: for every finding of the non-strict result, the strict
    result of the same text and context has a finding that overlaps it
    and whose confidence is at least as high. *)
Theorem strict_mode_keeps_what_was_flagged (ctx : ContextType) :
  exists resN resS,
    detectPhi toLowerCase content ctx false = Some resN
    /\ detectPhi toLowerCase content ctx true = Some resS
    /\ forall f, In f (findings resN) ->
         exists g, In g (findings resS) /\ overlaps f g = true
                   /\ (confidence f <= confidence g)%Z.
Proof.
  destruct (detectPhi_total toLowerCase content ctx false)
    as (rawN & HrN & AN & HN).
  destruct (detectPhi_total toLowerCase content ctx true)
    as (rawS & HrS & AS & HS).
  eexists. eexists. split; [exact HN|]. split; [exact HS|]. simpl.
  intros f Hf. apply deduplicated_raw in Hf.
  assert (Hcov : exists c', In c' rawS /\ skeleton c' = skeleton f
                            /\ (confidence f <= confidence c')%Z).
  { apply (scanPatterns_strict_covers PHI_PATTERNS ctx [] [] (outN := rawN));
      [intros c []|exact HrN|exact HrS|exact Hf]. }
  destruct Hcov as (c' & Hc' & Hsk & Hle).
  rewrite Forall_forall in AS.
  destruct (emitted_shape (AS c' Hc')) as (Hne & _).
  unfold skeleton in Hsk. injection Hsk as _ _ Hst Hen.
  assert (Hself : overlaps f c' = true).
  { unfold overlaps. rewrite <- Hst, <- Hen.
    apply negb_true_iff. apply orb_false_iff.
    split; apply Nat.leb_gt; lia. }
  assert (Hin : In c' (sortFindings rawS))
    by (apply (Permutation_in _ (Permutation_sym (sortFindings_perm rawS)));
        exact Hc').
  destruct (@deduplicateInto_covered (sortFindings rawS) []
              (sortFindings_sorted rawS) c' Hin) as [Hkept|(g & Hg & Ho & Hge)].
  - exists c'. split; [exact Hkept|]. split; [exact Hself|exact Hle].
  - exists g. split; [exact Hg|]. split; [|lia].
    unfold overlaps in *. rewrite <- Hst, <- Hen. exact Ho.
Qed.

End Modes.

(** ** Sorting and overlap resolution, once more *)

Lemma find_all_false (A : Type) (f : A -> bool) (l : list A) :
  (forall x, In x l -> f x = false) -> find f l = None.
Proof.
  induction l as [|a l IH]; intros H; simpl; [reflexivity|].
  rewrite (H a (or_introl eq_refl)). apply IH.
  intros x Hx. apply H. right. exact Hx.
Qed.

Lemma ForallOrdPairs_app_inv (A : Type) (R : A -> A -> Prop) (l1 l2 : list A) :
  ForallOrdPairs R (l1 ++ l2) ->
  forall a b, In a l1 -> In b l2 -> R a b.
Proof.
  induction l1 as [|x l1 IH]; intros H a b Ha Hb; [contradiction|].
  simpl in H. inversion H as [|? ? Hf Hs]; subst.
  destruct Ha as [->|Ha].
  - rewrite Forall_forall in Hf. apply Hf. apply in_or_app. right. exact Hb.
  - exact (IH Hs a b Ha Hb).
Qed.

Lemma sortFindings_of_sorted (l : list PhiFinding) :
  StronglySorted byConfidence l -> sortFindings l = l.
Proof.
  induction l as [|f l IH]; intros H; [reflexivity|].
  apply StronglySorted_inv in H. destruct H as [Hs Hf].
  cbn [sortFindings fold_right]. fold (sortFindings l). rewrite (IH Hs).
  destruct l as [|g l]; [reflexivity|]. simpl.
  inversion Hf as [|? ? Hg _]; subst. unfold byConfidence in Hg.
  apply Z.ltb_ge in Hg. rewrite Hg. reflexivity.
Qed.

Lemma deduplicateInto_of_disjoint (todo result : list PhiFinding) :
  ForallOrdPairs disjoint (result ++ todo) ->
  deduplicateInto result todo = result ++ todo.
Proof.
  revert result. induction todo as [|x todo IH]; intros result H; simpl.
  - rewrite app_nil_r. reflexivity.
  - rewrite find_all_false.
    + rewrite IH; rewrite <- app_assoc; [reflexivity|exact H].
    + intros y Hy. apply overlaps_false_disjoint. apply disjoint_sym.
      apply (ForallOrdPairs_app_inv _ _ H y x Hy). left. reflexivity.
Qed.

(** X6. A scan result is a fixed point of the post-processing: sorting
    its findings again and resolving overlaps again returns the same
    list. *)
Theorem result_is_stable_under_postprocessing
        (toLowerCase : JsString -> JsString) (content : JsString)
        (ctx : ContextType) (strict : bool) :
  exists res,
    detectPhi toLowerCase content ctx strict = Some res
    /\ deduplicateFindings (sortFindings (findings res)) = findings res.
Proof.
  destruct (detectPhi_total toLowerCase content ctx strict) as (raw & _ & _ & H).
  eexists. split; [exact H|]. simpl.
  assert (Hs : StronglySorted byConfidence (deduplicateFindings (sortFindings raw)))
    by (apply deduplicateInto_sorted; simpl; apply sortFindings_sorted).
  assert (Hd : ForallOrdPairs disjoint (deduplicateFindings (sortFindings raw)))
    by (apply deduplicateInto_disjoint; constructor).
  rewrite (sortFindings_of_sorted Hs).
  unfold deduplicateFindings at 1. rewrite deduplicateInto_of_disjoint;
    [reflexivity|exact Hd].
Qed.

Lemma deduplicateFindings_nil (l : list PhiFinding) :
  deduplicateFindings l = [] <-> l = [].
Proof.
  split; [|intros ->; reflexivity].
  destruct l as [|x l]; [reflexivity|]. intros H. exfalso.
  unfold deduplicateFindings in H. simpl in H.
  assert (Hin : In x (deduplicateInto [x] l))
    by (apply deduplicateInto_keeps; left; reflexivity).
  rewrite H in Hin. exact Hin.
Qed.

Lemma sortFindings_nil (l : list PhiFinding) : sortFindings l = [] <-> l = [].
Proof.
  split; [|intros ->; reflexivity]. intros H.
  pose proof (sortFindings_perm l) as P. rewrite H in P.
  exact (Permutation_nil P).
Qed.

(** X5. For content that is not empty the tool always answers, and it
    answers that no PHI was detected exactly when the scan produced no
    raw candidate; otherwise it reports the result of [detectPhi], whose
    findings are then not empty.  Context defaults to general, and the
    strict-mode argument, when present, takes precedence over the
    configuration. *)
Theorem tool_reply_for_content
        (toLowerCase : JsString -> JsString) (args : PhiDetectArgs)
        (config : option bool) (c0 : CodeUnit) (cs : JsString) :
  argContent args = Some (c0 :: cs) ->
  let ctx := match argContext args with Some c => c | None => general end in
  let strict :=
    match argStrictMode args with
    | Some b => b
    | None => match config with Some b => b | None => false end
    end in
  exists raw res,
    candidates toLowerCase (c0 :: cs) ctx strict = Some raw
    /\ detectPhi toLowerCase (c0 :: cs) ctx strict = Some res
    /\ (raw = [] ->
        handlePhiDetect toLowerCase args config = Some NoPhiDetected)
    /\ (raw <> [] ->
        handlePhiDetect toLowerCase args config = Some (PhiResults res)
        /\ findings res <> []).
Proof.
  intros Hc ctx strict.
  destruct (detectPhi_total toLowerCase (c0 :: cs) ctx strict)
    as (raw & Hr & _ & H).
  eexists. eexists. split; [exact Hr|]. split; [exact H|].
  unfold handlePhiDetect. rewrite Hc. fold ctx. fold strict. rewrite H.
  cbn [findings]. split.
  - intros ->. reflexivity.
  - intros Hne.
    destruct (deduplicateFindings (sortFindings raw)) as [|f fs] eqn:E.
    + exfalso. apply Hne. apply sortFindings_nil. apply deduplicateFindings_nil.
      exact E.
    + split; [reflexivity|discriminate].
Qed.

Lemma tool_reply_for_content_witness :
  argContent {| argContent := Some recordScenario; argContext := None;
                argStrictMode := Some false |} = Some recordScenario
  /\ exists res,
       handlePhiDetect asciiToLowerCase
         {| argContent := Some recordScenario; argContext := None;
            argStrictMode := Some false |} (Some true)
       = Some (PhiResults res)
       /\ strictMode res = false /\ context res = general.
Proof.
  split; [reflexivity|].
  destruct (@tool_reply_for_content asciiToLowerCase
              {| argContent := Some recordScenario; argContext := None;
                 argStrictMode := Some false |} (Some true) 80%N
              (tl recordScenario) eq_refl)
    as (raw & res & Hr & Hd & _ & Hres).
  exists res. split.
  - apply Hres. intros ->. vm_compute in Hr. discriminate Hr.
  - vm_compute in Hd. inversion Hd; subst res. split; reflexivity.
Defined.


(** ** Confidence tiers of the reports *)

Lemma filter_none (A : Type) (f : A -> bool) (l : list A) :
  (forall x, In x l -> f x = false) -> filter f l = [].
Proof.
  induction l as [|a l IH]; intros H; simpl; [reflexivity|].
  rewrite (H a (or_introl eq_refl)). apply IH.
  intros x Hx. apply H. right. exact Hx.
Qed.

(** Findings in descending order fall apart into the three tiers in that
    order. *)
Lemma tiers_of_sorted (hi lo : Z) (l : list PhiFinding) :
  (lo <= hi)%Z -> StronglySorted byConfidence l ->
  filter (fun f => (hi <=? confidence f)%Z) l
  ++ filter (fun f => (lo <=? confidence f)%Z && (confidence f <? hi)%Z) l
  ++ filter (fun f => (confidence f <? lo)%Z) l
  = l.
Proof.
  intros Hlh. induction l as [|f l IH]; intros H; [reflexivity|].
  apply StronglySorted_inv in H. destruct H as [Hs Hf].
  specialize (IH Hs). rewrite Forall_forall in Hf. unfold byConfidence in Hf.
  cbn [filter].
  destruct (hi <=? confidence f)%Z eqn:E1.
  - apply Z.leb_le in E1.
    assert (E2 : (confidence f <? hi)%Z = false) by (apply Z.ltb_ge; lia).
    assert (E3 : (confidence f <? lo)%Z = false) by (apply Z.ltb_ge; lia).
    rewrite E2, E3, andb_false_r. simpl. rewrite IH. reflexivity.
  - apply Z.leb_gt in E1.
    assert (Hhigh : filter (fun f => (hi <=? confidence f)%Z) l = []).
    { apply filter_none. intros x Hx. apply Z.leb_gt. specialize (Hf x Hx). lia. }
    rewrite Hhigh in *. simpl in *.
    assert (E2 : (confidence f <? hi)%Z = true) by (apply Z.ltb_lt; lia).
    rewrite E2, andb_true_r.
    destruct (lo <=? confidence f)%Z eqn:E3.
    + apply Z.leb_le in E3.
      assert (E4 : (confidence f <? lo)%Z = false) by (apply Z.ltb_ge; lia).
      rewrite E4. simpl. rewrite IH. reflexivity.
    + apply Z.leb_gt in E3.
      assert (E4 : (confidence f <? lo)%Z = true) by (apply Z.ltb_lt; lia).
      rewrite E4.
      assert (Hmid : filter (fun f => (lo <=? confidence f)%Z
                                      && (confidence f <? hi)%Z) l = []).
      { apply filter_none. intros x Hx. apply andb_false_iff. left.
        apply Z.leb_gt. specialize (Hf x Hx). lia. }
      rewrite Hmid in *. simpl in *. rewrite IH. reflexivity.
Qed.

(** X10. The report of the tool lists every finding exactly once and in
    the order of the result: the high, medium and low lists of
    [formatPhiResults], one after the other, are the findings. *)
Theorem report_lists_findings_in_order
        (toLowerCase : JsString -> JsString) (content : JsString)
        (ctx : ContextType) (strict : bool) :
  exists res,
    detectPhi toLowerCase content ctx strict = Some res
    /\ FormatPhiResults.highConfidence res
       ++ FormatPhiResults.mediumConfidence res
       ++ FormatPhiResults.lowConfidence res
       = findings res.
Proof.
  destruct (detectPhi_total toLowerCase content ctx strict) as (raw & _ & _ & H).
  eexists. split; [exact H|].
  unfold FormatPhiResults.highConfidence, FormatPhiResults.mediumConfidence,
    FormatPhiResults.lowConfidence. cbn [findings].
  apply tiers_of_sorted; [lia|].
  apply deduplicateInto_sorted. simpl. apply sortFindings_sorted.
Qed.

(** X13. Outside strict mode the summary of the editor command never has
    a low-confidence line: its low list is empty, and its high and
    medium lists, one after the other, are the findings. *)
Theorem summary_has_no_low_tier_outside_strict_mode
        (toLowerCase : JsString -> JsString) (content : JsString)
        (ctx : ContextType) :
  exists res,
    detectPhi toLowerCase content ctx false = Some res
    /\ ShowPhiFindingsSummary.lowConfidence res = []
    /\ ShowPhiFindingsSummary.highConfidence res
       ++ ShowPhiFindingsSummary.mediumConfidence res
       = findings res.
Proof.
  destruct (detectPhi_total toLowerCase content ctx false) as (raw & _ & A & H).
  eexists. split; [exact H|].
  set (res := {| findings := deduplicateFindings (sortFindings raw);
                 scannedLength := length content;
                 context := ctx; strictMode := false |}).
  assert (Hs : StronglySorted byConfidence (findings res))
    by (apply deduplicateInto_sorted; simpl; apply sortFindings_sorted).
  assert (Hlow : ShowPhiFindingsSummary.lowConfidence res = []).
  { apply filter_none. rewrite Forall_forall in A.
    intros x Hx. apply Z.ltb_ge. apply deduplicated_raw in Hx.
    exact (emitted_floor (A x Hx)). }
  split; [exact Hlow|].
  pose proof (@tiers_of_sorted 80 50 (findings res) ltac:(lia) Hs) as T.
  unfold ShowPhiFindingsSummary.lowConfidence in Hlow.
  rewrite Hlow, app_nil_r in T. exact T.
Qed.

(** ** How much of the text the findings span *)

Lemma filter_all (A : Type) (f : A -> bool) (l : list A) :
  (forall x, In x l -> f x = true) -> filter f l = l.
Proof.
  induction l as [|a l IH]; intros H; simpl; [reflexivity|].
  rewrite (H a (or_introl eq_refl)). f_equal. apply IH.
  intros x Hx. apply H. right. exact Hx.
Qed.

Lemma filter_either (A : Type) (a b : A -> bool) (l : list A) :
  (forall x, In x l -> a x = true -> b x = false) ->
  length (filter (fun x => a x || b x) l)
  = length (filter a l) + length (filter b l).
Proof.
  induction l as [|x l IH]; intros H; simpl; [reflexivity|].
  assert (IH' : length (filter (fun x => a x || b x) l)
                = length (filter a l) + length (filter b l)).
  { apply IH. intros y Hy. apply H. right. exact Hy. }
  destruct (a x) eqn:Ea; simpl.
  - rewrite (H x (or_introl eq_refl) Ea). simpl. rewrite IH'. reflexivity.
  - destruct (b x); simpl; rewrite IH'; lia.
Qed.

(** The positions below [n] that lie in [start, finish) are as many as
    the range is long. *)
Lemma positions_in_range (start finish n : nat) :
  start <= finish -> finish <= n ->
  length (filter (fun k => (start <=? k)%nat && (k <? finish)%nat) (seq 0 n))
  = finish - start.
Proof.
  intros H1 H2.
  replace n with (start + ((finish - start) + (n - finish))) by lia.
  rewrite !seq_app, !filter_app, !length_app. simpl.
  rewrite (@filter_none _ _ (seq 0 start)).
  - rewrite (@filter_all _ _ (seq start (finish - start))).
    + rewrite (@filter_none _ _ (seq (start + (finish - start)) (n - finish))).
      * rewrite length_seq. simpl. lia.
      * intros k Hk. apply in_seq in Hk. apply andb_false_iff. right.
        apply Nat.ltb_ge. lia.
    + intros k Hk. apply in_seq in Hk. apply andb_true_iff. split;
        [apply Nat.leb_le|apply Nat.ltb_lt]; lia.
  - intros k Hk. apply in_seq in Hk. apply andb_false_iff. left.
    apply Nat.leb_gt. lia.
Qed.

Lemma spannedLength_counts_positions (n : nat) (fs : list PhiFinding) :
  ForallOrdPairs disjoint fs ->
  Forall (fun f => startIndex f < endIndex f /\ endIndex f <= n) fs ->
  spannedLength fs = length (filter (covered fs) (seq 0 n)).
Proof.
  induction fs as [|f fs IH]; intros Hd Hb.
  - simpl. rewrite filter_none; [reflexivity|]. intros; reflexivity.
  - inversion Hd as [|? ? Hf Hd']; subst. inversion Hb as [|? ? Hfb Hb']; subst.
    cbn [spannedLength fold_right]. fold (spannedLength fs).
    rewrite (IH Hd' Hb').
    assert (E : forall k, covered (f :: fs) k = inside k f || covered fs k)
      by reflexivity.
    rewrite (filter_ext _ _ E).
    rewrite filter_either.
    + unfold inside at 1. rewrite positions_in_range; lia.
    + intros k _ Hk. unfold covered. apply not_true_is_false. intros Hc.
      apply existsb_exists in Hc. destruct Hc as (g & Hg & Hkg).
      rewrite Forall_forall in Hf. specialize (Hf g Hg).
      unfold inside in Hk, Hkg.
      apply andb_true_iff in Hk, Hkg.
      destruct Hk as [K1 K2]. destruct Hkg as [K3 K4].
      apply Nat.leb_le in K1, K3. apply Nat.ltb_lt in K2, K4.
      unfold disjoint in Hf. lia.
Qed.

Lemma spannedLength_at_least_count (fs : list PhiFinding) :
  Forall (fun f => startIndex f < endIndex f) fs ->
  length fs <= spannedLength fs.
Proof.
  induction 1 as [|f fs Hf _ IH]; simpl; [lia|].
  fold (spannedLength fs). lia.
Qed.

(** X7. The findings of a scan never span more units than were scanned,
    and there are never more findings than units: the lengths of their
    ranges add up to at most [scannedLength]. *)
Theorem findings_fit_in_the_text
        (toLowerCase : JsString -> JsString) (content : JsString)
        (ctx : ContextType) (strict : bool) :
  exists res,
    detectPhi toLowerCase content ctx strict = Some res
    /\ spannedLength (findings res) <= scannedLength res
    /\ length (findings res) <= scannedLength res.
Proof.
  destruct (detectPhi_total toLowerCase content ctx strict) as (raw & _ & A & H).
  eexists. split; [exact H|]. cbn [findings scannedLength].
  set (fs := deduplicateFindings (sortFindings raw)).
  assert (Hb : Forall (fun f => startIndex f < endIndex f
                                /\ endIndex f <= length content) fs).
  { rewrite Forall_forall in *. intros f Hf. apply deduplicated_raw in Hf.
    destruct (emitted_shape (A f Hf)) as (H1 & H2 & _). split; assumption. }
  assert (Hd : ForallOrdPairs disjoint fs)
    by (apply deduplicateInto_disjoint; constructor).
  assert (Hsum : spannedLength fs <= length content).
  { rewrite (spannedLength_counts_positions Hd Hb).
    rewrite <- (length_seq (length content) 0) at 2. apply filter_length_le. }
  split; [exact Hsum|].
  apply Nat.le_trans with (m := spannedLength fs); [|exact Hsum].
  apply spannedLength_at_least_count.
  rewrite Forall_forall in *. intros f Hf. exact (proj1 (Hb f Hf)).
Qed.

(** ** Placeholder values inside a match *)

Section Placeholders.

Variable input : JsString.

Lemma matcher_literal_anyCase (cs : JsString) (x : nat) (c : Continuation) :
  sameIgnoringCase cs (firstn (length cs) (skipn x input)) ->
  matcher true input (seqs (map Char cs)) x c = c (x + length cs).
Proof.
  revert x. induction cs as [|a cs IH]; intros x H; simpl.
  - f_equal. lia.
  - simpl in H. destruct (skipn x input) as [|b t] eqn:E;
      [inversion H|].
    inversion H as [|? ? ? ? Hab Ht]; subst.
    apply skipn_cons in E. destruct E as [E1 E2].
    rewrite E1. unfold charMatches, canonicalize. rewrite Hab, N.eqb_refl.
    fold (seqs (map Char cs)). rewrite IH.
    + f_equal. lia.
    + rewrite E2. exact Ht.
Qed.

Lemma containsAt_in_range (anyCase : bool) (j : nat) (w : JsString) :
  containsAt anyCase input j w ->
  exists j', j' <= length input /\ containsAt anyCase input j' w.
Proof.
  intros H. destruct (Nat.le_gt_cases j (length input)) as [Hj|Hj].
  - exists j. split; assumption.
  - exists 0. split; [lia|].
    assert (Hs : slice input j (j + length w) = []).
    { unfold slice. rewrite skipn_all2 by lia. apply firstn_nil. }
    assert (Hw : w = []).
    { unfold containsAt in H. rewrite Hs in H. destruct anyCase.
      - inversion H. reflexivity.
      - symmetry. exact H. }
    subst w. unfold containsAt, slice. simpl. destruct anyCase;
      [constructor|reflexivity].
Qed.

Lemma matchAt_literal (anyCase : bool) (w : string) (j : nat) :
  containsAt anyCase input j (str w) ->
  matchAt anyCase input (lit w) j <> None.
Proof.
  unfold containsAt, slice, matchAt, lit.
  replace (j + length (str w) - j) with (length (str w)) by lia.
  destruct anyCase; intros H.
  - rewrite matcher_literal_anyCase by exact H. discriminate.
  - rewrite matcher_literal by exact H. discriminate.
Qed.

Lemma matchAt_alts (anyCase : bool) (rs : list Regex) (r : Regex) (j : nat) :
  In r rs -> matchAt anyCase input r j <> None ->
  matchAt anyCase input (alts rs) j <> None.
Proof.
  unfold matchAt. induction rs as [|r1 rs IH]; intros Hin Hm; [contradiction|].
  destruct rs as [|r2 rs].
  - destruct Hin as [->|[]]. exact Hm.
  - cbn [alts matcher].
    destruct (matcher anyCase input r1 j Some) eqn:E; [discriminate|].
    apply IH; [|exact Hm]. destruct Hin as [->|Hin]; [congruence|exact Hin].
Qed.

Lemma test_finds (anyCase : bool) (r : Regex) (j : nat) :
  j <= length input -> matchAt anyCase input r j <> None ->
  test anyCase r input = true.
Proof.
  intros Hj Hm. unfold test, exec.
  destruct (searchFrom anyCase input r (S (length input) - 0) 0) eqn:E;
    [reflexivity|].
  exfalso. revert E. apply searchFrom_finds with (j := j); [lia|exact Hm].
Qed.

End Placeholders.

Lemma literal_entry_suppresses
      (toLowerCase : JsString -> JsString) (content m : JsString)
      (index j : nat) (w : string) (anyCase : bool) :
  In (lit w, anyCase) FALSE_POSITIVE_PATTERNS ->
  containsAt anyCase m j (str w) ->
  isFalsePositive toLowerCase m content index = true.
Proof.
  intros Hin Hc. unfold isFalsePositive.
  destruct (@containsAt_in_range m anyCase j (str w) Hc) as (j' & Hj & Hc').
  assert (E : existsb (fun fp => RegExp.test (snd fp) (fst fp) m)
                      FALSE_POSITIVE_PATTERNS = true).
  { apply existsb_exists. exists (lit w, anyCase). split; [exact Hin|].
    simpl. apply test_finds with (j := j'); [exact Hj|].
    apply matchAt_literal. exact Hc'. }
  rewrite E. reflexivity.
Qed.

Lemma word_entry_suppresses
      (toLowerCase : JsString -> JsString) (content m : JsString)
      (index j : nat) (ws : list string) (w : string) (anyCase : bool) :
  In (words ws, anyCase) FALSE_POSITIVE_PATTERNS -> In w ws ->
  containsAt anyCase m j (str w) ->
  isFalsePositive toLowerCase m content index = true.
Proof.
  intros Hin Hw Hc. unfold isFalsePositive.
  destruct (@containsAt_in_range m anyCase j (str w) Hc) as (j' & Hj & Hc').
  assert (E : existsb (fun fp => RegExp.test (snd fp) (fst fp) m)
                      FALSE_POSITIVE_PATTERNS = true).
  { apply existsb_exists. exists (words ws, anyCase). split; [exact Hin|].
    simpl. apply test_finds with (j := j'); [exact Hj|].
    unfold words. apply matchAt_alts with (r := lit w).
    - apply in_map. exact Hw.
    - apply matchAt_literal. exact Hc'. }
  rewrite E. reflexivity.
Qed.

Lemma suppressedLiterals_suppress
      (toLowerCase : JsString -> JsString) (content m : JsString)
      (index j : nat) (w : string) (anyCase : bool) :
  In (w, anyCase) suppressedLiterals ->
  containsAt anyCase m j (str w) ->
  isFalsePositive toLowerCase m content index = true.
Proof.
  intros Hin Hc. unfold suppressedLiterals in Hin. simpl in Hin.
  repeat (destruct Hin as [Hin|Hin];
          [injection Hin as <- <-;
           first [ solve [eapply (@literal_entry_suppresses toLowerCase content
                                    m index j); cycle 1;
                          [exact Hc
                          |unfold FALSE_POSITIVE_PATTERNS;
                           repeat (try (left; reflexivity); right)]]
                 | eapply (@word_entry_suppresses toLowerCase content m index j
                             ["placeholder"; "example"; "sample"; "test";
                              "dummy"; "mock"; "fake"]); cycle 2;
                   [exact Hc
                   |unfold FALSE_POSITIVE_PATTERNS;
                    repeat (try (left; reflexivity); right)
                   |simpl; tauto] ]
          |]).
  contradiction.
Qed.

(** X8. No finding of any scan has a matched text that contains one of
    the placeholder values of the false-positive list: the example
    addresses and the marker words placeholder, example, sample, test,
    dummy, mock and fake in any letter case, and the numbers 123-45-6789,
    000-00-0000, 111-11-1111 and 555-555-5555 as written.  This holds
    wherever in the matched text the value stands, and so also when the
    word is part of a longer one. *)
Theorem no_finding_contains_a_placeholder
        (toLowerCase : JsString -> JsString) (content : JsString)
        (ctx : ContextType) (strict : bool) :
  exists res,
    detectPhi toLowerCase content ctx strict = Some res
    /\ forall f w anyCase j,
         In f (findings res) -> In (w, anyCase) suppressedLiterals ->
         ~ containsAt anyCase (matched f) j (str w).
Proof.
  destruct (detectPhi_total toLowerCase content ctx strict) as (raw & _ & A & H).
  eexists. split; [exact H|]. simpl. intros f w anyCase j Hf Hw Hc.
  apply deduplicated_raw in Hf. rewrite Forall_forall in A.
  destruct (emitted_shape (A f Hf)) as (_ & _ & _ & _ & Hfp & _).
  pose proof (@suppressedLiterals_suppress toLowerCase content (matched f)
                (startIndex f) j w anyCase Hw Hc) as Hsup.
  congruence.
Qed.

(** ** Masking *)

(** X9. [maskSensitiveValue] turns a value of at most four units into
    four asterisks; a longer value keeps its length, its first two and
    its last two units, and every unit in between becomes an asterisk. *)
Theorem mask_hides_the_middle (value : JsString) :
  (length value <= 4 -> maskSensitiveValue value = str "****")
  /\ (4 < length value ->
      length (maskSensitiveValue value) = length value
      /\ forall i, i < length value ->
           nth_error (maskSensitiveValue value) i
           = if ((i <? 2) || (length value - 2 <=? i))%nat
             then nth_error value i else Some asterisk).
Proof.
  unfold maskSensitiveValue, slice, sliceFromEnd. split.
  - intros H. apply Nat.leb_le in H. rewrite H. reflexivity.
  - intros H. assert (E : (length value <=? 4)%nat = false)
      by (apply Nat.leb_gt; exact H).
    rewrite E. simpl skipn. replace (2 - 0) with 2 by lia.
    assert (L1 : length (firstn 2 value) = 2)
      by (rewrite length_firstn; lia).
    assert (L2 : length (repeat asterisk (length value - 4)) = length value - 4)
      by apply repeat_length.
    split.
    + rewrite !length_app, L1, L2, length_skipn. lia.
    + intros i Hi.
      destruct (i <? 2)%nat eqn:E1; cbn [orb].
      * apply Nat.ltb_lt in E1.
        rewrite nth_error_app1 by (rewrite L1; lia). rewrite nth_error_firstn.
        apply Nat.ltb_lt in E1. rewrite E1. reflexivity.
      * apply Nat.ltb_ge in E1.
        rewrite nth_error_app2 by (rewrite L1; lia). rewrite L1.
        destruct (length value - 2 <=? i)%nat eqn:E2.
        -- apply Nat.leb_le in E2.
           rewrite nth_error_app2 by (rewrite L2; lia).
           rewrite L2, nth_error_skipn. f_equal. lia.
        -- apply Nat.leb_gt in E2.
           rewrite nth_error_app1 by (rewrite L2; lia).
           apply nth_error_repeat. lia.
Qed.

(** ** Explanations and scores *)

(** X11. The explanation of every finding is built from the finding's
    own fields: the level word, then its HIPAA identifier and its
    category, where the level word is High, Medium or Low according to
    the list of [formatPhiResults] the finding is rendered in. *)
Theorem explanation_agrees_with_the_report
        (toLowerCase : JsString -> JsString) (content : JsString)
        (ctx : ContextType) (strict : bool) :
  exists res,
    detectPhi toLowerCase content ctx strict = Some res
    /\ forall f, In f (findings res) ->
         exists level,
           explanation f
           = String.append level
               (String.append " confidence match for "
                 (String.append (findingHipaaIdentifier f)
                   (String.append ". This is a "
                     (String.append (categoryName (findingCategory f))
                       " identifier under HIPAA Safe Harbor de-identification."))))
           /\ (In f (FormatPhiResults.highConfidence res) -> level = "High")
           /\ (In f (FormatPhiResults.mediumConfidence res) -> level = "Medium")
           /\ (In f (FormatPhiResults.lowConfidence res) -> level = "Low").
Proof.
  destruct (detectPhi_total toLowerCase content ctx strict) as (raw & Hr & _ & H).
  eexists. split; [exact H|].
  unfold FormatPhiResults.highConfidence, FormatPhiResults.mediumConfidence,
    FormatPhiResults.lowConfidence. cbn [findings].
  intros f Hf. pose proof (deduplicated_raw _ _ Hf) as Hraw.
  unfold candidates in Hr. apply scanPatterns_genuine in Hr.
  destruct Hr as (new & -> & A). simpl in Hraw. rewrite Forall_forall in A.
  destruct (A f Hraw) as (p & _ & _ & _ & _ & _ & Hcat & Hid & Hex).
  rewrite Hex, Hcat, Hid. unfold getExplanation.
  eexists. split; [reflexivity|].
  repeat split; intros Hin; apply filter_In in Hin; destruct Hin as [_ Hc].
  - rewrite Hc. reflexivity.
  - apply andb_true_iff in Hc. destruct Hc as [Hc1 Hc2].
    apply Z.ltb_lt in Hc2. apply Z.leb_le in Hc1.
    assert (E : (80 <=? confidence f)%Z = false) by (apply Z.leb_gt; lia).
    rewrite E. apply Z.leb_le in Hc1. rewrite Hc1. reflexivity.
  - apply Z.ltb_lt in Hc.
    assert (E1 : (80 <=? confidence f)%Z = false) by (apply Z.leb_gt; lia).
    assert (E2 : (60 <=? confidence f)%Z = false) by (apply Z.leb_gt; lia).
    rewrite E1, E2. reflexivity.
Qed.

Lemma catalog_scores_within_range :
  forall p, In p PHI_PATTERNS -> forall ctx strict,
    (0 <= adjustedConfidence p ctx strict <= 100)%Z.
Proof.
  intros p Hp ctx strict. unfold PHI_PATTERNS in Hp. simpl in Hp.
  repeat (destruct Hp as [<-|Hp];
          [destruct ctx, strict; vm_compute; split; discriminate|]).
  contradiction.
Qed.

(** X14. With the shipped catalog the clamp never alters a score: the
    confidence of every finding is the base confidence of its pattern
    plus the context modifier, plus 15 in strict mode when that sum is
    below 70. *)
Theorem confidence_is_never_clamped
        (toLowerCase : JsString -> JsString) (content : JsString)
        (ctx : ContextType) (strict : bool) :
  exists res,
    detectPhi toLowerCase content ctx strict = Some res
    /\ Forall (fun f => exists p,
                  In p PHI_PATTERNS /\ type f = name p
                  /\ confidence f
                     = (contextConfidence p ctx
                        + if strict && (contextConfidence p ctx <? 70)%Z
                          then 15 else 0)%Z)
              (findings res).
Proof.
  destruct (detectPhi_total toLowerCase content ctx strict) as (raw & _ & A & H).
  eexists. split; [exact H|]. simpl.
  rewrite Forall_forall in *. intros f Hf. apply deduplicated_raw in Hf.
  destruct (A f Hf) as (p & Hp & index & e & _ & _ & Hm).
  apply processMatch_Some in Hm. destruct Hm as (_ & Ht & _ & _ & _ & Hc & _).
  exists p. split; [exact Hp|]. split; [exact Ht|].
  pose proof (@catalog_scores_within_range p Hp ctx strict) as Hrange.
  rewrite Hc. unfold clamp. unfold adjustedConfidence in *.
  destruct (strict && (contextConfidence p ctx <? 70)%Z); lia.
Qed.

(** ** Diagnostics of the editor command *)



Section DiagnosticFacts.

Variable Position : Type.
Variable positionAt : nat -> Position.



End DiagnosticFacts.
